(** * Stock-price pipeline: fetcher, feature engine and trainers

    A shallow embedding of the three notebooks of the repository:

    - Notebook 1 (data fetching): [Fetch.fetch_and_store_data] and the
      loop over [stocks];
    - Notebook 2 (data preprocessing): [Preprocess.clean],
      [Preprocess.engineer], [Preprocess.dropna] and the write of
      [processed_stocks];
    - the two training notebooks (Random Forest and LSTM):
      [Train.rf_prepare] and [Train.lstm_prepare].

    Data frames are lists of rows in stored order.  Finite floating-point
    numbers are idealised as rationals ([Q]): the rounding of each operation
    is left out, its overflow is not.  The non-finite values are kept as
    [Inf] and [NaN], because [dropna] tells them apart: a division by zero
    or a quotient beyond the range of a double in [pct_change], an infinity
    stored in the table or read from text.  The text-to-number parser behind
    [pd.to_numeric], the number that the running sums of the rolling
    standard deviation arrive at, the square root of the standard scaler
    and the shuffle of the split are parameters of the development.  The
    running sums themselves are run on binary64 numbers in [Float64]. *)

From Stdlib Require Import QArith Qabs Lqa.
From Stdlib Require PrimFloat FloatOps SpecFloat.
From stdpp Require Import base list strings.

Local Open Scope nat_scope.

(** ** Numbers as pandas holds them *)

Inductive float : Type :=
  | Fin (q : Q)
  | Inf
  | NaN.

Definition isna (x : float) : bool :=
  match x with NaN => true | _ => false end.

Definition is_fin (x : float) : bool :=
  match x with Fin _ => true | _ => false end.

(** The doubles end just below [2^1024]: an exact result of magnitude
    [2^1024 - 2^970] or more rounds to an infinity. *)
Definition overflow_threshold : Q := inject_Z (2 ^ 1024 - 2 ^ 970).

Definition overflows (q : Q) : bool := Qle_bool overflow_threshold (Qabs q).

(** The double that stands for an exact result, its rounding left out. *)
Definition of_exact (q : Q) : float := if overflows q then Inf else Fin q.

(** IEEE division: a finite number divided by zero is an infinity, zero by
    zero is not a number, and a quotient of finite numbers that is out of
    range is an infinity. *)
Definition fdiv (a b : float) : float :=
  match a, b with
  | NaN, _ | _, NaN => NaN
  | Inf, Inf => NaN
  | Inf, Fin _ => Inf
  | Fin _, Inf => Fin 0
  | Fin x, Fin y =>
      if Qeq_bool y 0 then (if Qeq_bool x 0 then NaN else Inf)
      else of_exact (x / y)
  end.

(** Subtraction of a finite constant; taking one from a double does not
    leave the range. *)
Definition fsub_fin (a : float) (c : Q) : float :=
  match a with
  | Fin x => Fin (x - c)
  | Inf => Inf
  | NaN => NaN
  end.

Definition Qsum (xs : list Q) : Q := foldr Qplus 0%Q xs.

Definition Qlen (xs : list Q) : Q := inject_Z (Z.of_nat (length xs)).

(** Arithmetic mean of a list of observations. *)
Definition Qmean (xs : list Q) : Q := (Qsum xs / Qlen xs)%Q.

(** Sample variance (ddof = 1), the pandas default of [rolling(...).std()]. *)
Definition Qvar (xs : list Q) : Q :=
  let m := Qmean xs in
  (Qsum (map (fun x => (x - m) * (x - m)) xs) / (Qlen xs - 1))%Q.

(** ** The tables *)

(** A cell of the [Adj Close] column as SQLite returns it, when the table
    holds what the fetch notebook writes (a finite number or nothing) or
    text: [RawTable.cell] below has the infinities as well. *)
Inductive sqlval : Type :=
  | SqlNull
  | SqlReal (q : Q)
  | SqlText (s : string).

(** A row of the [stocks] table, in the column order of the frame.  The
    parameter is the type of the [Adj Close] cell: [sqlval] as read from the
    database, [float] once [pd.to_numeric] has run. *)
Record row (A : Type) : Type := mkRow {
  Date : option Z;
  Adj_Close : A;
  Close : option Q;
  High : option Q;
  Low : option Q;
  Open : option Q;
  Volume : option Z;
  Company : option string;
  Ticker : option string
}.

Arguments mkRow {A}.
Arguments Date {A}.
Arguments Adj_Close {A}.
Arguments Close {A}.
Arguments High {A}.
Arguments Low {A}.
Arguments Open {A}.
Arguments Volume {A}.
Arguments Company {A}.
Arguments Ticker {A}.

Definition set_adj_close {A B} (f : A -> B) (r : row A) : row B :=
  mkRow (Date r) (f (Adj_Close r)) (Close r) (High r) (Low r) (Open r)
        (Volume r) (Company r) (Ticker r).

Definition set_date {A} (d : option Z) (r : row A) : row A :=
  mkRow d (Adj_Close r) (Close r) (High r) (Low r) (Open r)
        (Volume r) (Company r) (Ticker r).

(** A row of [processed_stocks]: the raw columns and the six derived ones. *)
Record feat_row : Type := mkFeat {
  base : row float;
  MA7 : float;
  MA14 : float;
  Daily_Return : float;
  Volatility : float;
  Lag_1 : float;
  Lag_2 : float
}.

(** No raw column of the row is null. *)
Definition raw_complete {A} (r : row A) : bool :=
  bool_decide (is_Some (Date r)) && bool_decide (is_Some (Close r)) &&
  bool_decide (is_Some (High r)) && bool_decide (is_Some (Low r)) &&
  bool_decide (is_Some (Open r)) && bool_decide (is_Some (Volume r)) &&
  bool_decide (is_Some (Company r)) && bool_decide (is_Some (Ticker r)).

(** ** Series operations of pandas *)

Module Series.

(** [x.shift(k)]: the values move down by [k] places, [NaN] fills the top. *)
Definition shift (k : nat) (xs : list float) : list float :=
  take (length xs) (replicate k NaN ++ xs).

(** Forward fill, the [fill_method] that [pct_change] applies first. *)
Fixpoint ffill_from (last : float) (xs : list float) : list float :=
  match xs with
  | [] => []
  | x :: rest =>
      let v := if isna x then last else x in
      v :: ffill_from v rest
  end.

Definition ffill (xs : list float) : list float := ffill_from NaN xs.

(** [x.pct_change()]: [filled / filled.shift(1) - 1]. *)
Definition pct_change (xs : list float) : list float :=
  let filled := ffill xs in
  zip_with (fun a b => fsub_fin (fdiv a b) 1) filled (shift 1 filled).

(** Rolling windows convert infinities to [NaN] before aggregating. *)
Definition prep_values (xs : list float) : list float :=
  map (fun x => match x with Inf => NaN | _ => x end) xs.

Definition observations (xs : list float) : list Q :=
  omap (fun x => match x with Fin q => Some q | _ => None end) xs.

(** The window of width [w] that ends at position [i], shorter at the top. *)
Definition window {A} (w i : nat) (xs : list A) : list A :=
  drop (S i - w) (take (S i) xs).

(** [x.rolling(window=w).agg()] with [min_periods] left at its default
    [w]: the aggregate of the valid observations of the window, [NaN] when
    fewer than [w] of them are there. *)
Definition rolling (w : nat) (agg : list Q -> float) (xs : list float)
  : list float :=
  let vs := prep_values xs in
  map (fun i =>
         let obs := observations (window w i vs) in
         if decide (w <= length obs) then agg obs else NaN)
      (seq 0 (length xs)).

Definition mean (obs : list Q) : float := Fin (Qmean obs).

(** [x.rolling(window=w).std()] does not recompute each window.  pandas
    carries a running mean and a running sum of squared deviations along
    the series, in double precision: at each row the value that enters the
    window is added and the one that leaves it is removed.  The number it
    arrives at depends on every value seen so far and on the rounding of
    each update, so it is a parameter here ([std_value]); so is the result
    once a value has been large enough for a square to overflow
    ([std_beyond]: an infinity, not a number, or a number).  Both get the
    series up to the current row, as the aggregation sees it. *)
Record running_std : Type := mkRunningStd {
  std_value : list float -> Q;
  std_beyond : list float -> float
}.

(** A value of magnitude [2^400] at most: the squared deviations of such
    values, and the sums of them over a window, stay far inside the range
    of a double. *)
Definition moderate (q : Q) : bool := Qle_bool (Qabs q) (inject_Z (2 ^ 400)).

Section Std.
Variable rstd : running_std.

(** The result is [NaN] when the window holds fewer than [w] valid
    observations ([min_periods], left at its default [w]) or not more than
    one ([ddof = 1]). *)
Definition rolling_std (w : nat) (xs : list float) : list float :=
  let vs := prep_values xs in
  map (fun i =>
         let seen := take (S i) vs in
         let nobs := length (observations (window w i vs)) in
         if decide (w <= nobs /\ 1 < nobs) then
           if forallb moderate (observations seen)
           then Fin (std_value rstd seen)
           else std_beyond rstd seen
         else NaN)
      (seq 0 (length xs)).
End Std.

End Series.

(** ** [groupby(key)[col].transform(f)] *)

Module GroupBy.

Section Transform.
Context {K : Type} `{EqDecision K} {A : Type}.

(** The values of the rows whose key is [g], in stored order. *)
Definition group_values (g : K) (keys : list (option K)) (vals : list A)
  : list A :=
  (filter (fun kv => kv.1 = Some g) (zip keys vals)).*2.

(** How many of the first [i] rows belong to group [g]. *)
Definition rank (g : K) (i : nat) (keys : list (option K)) : nat :=
  length (filter (fun k => k = Some g) (take i keys)).

(** Each group's series goes through [f]; every result returns to the row
    it came from.  Rows with a null key belong to no group and get [d]. *)
Definition transform (d : A) (f : list A -> list A)
    (keys : list (option K)) (vals : list A) : list A :=
  imap (fun i k =>
          match k with
          | None => d
          | Some g => nth (rank g i keys) (f (group_values g keys vals)) d
          end) keys.
End Transform.

End GroupBy.

(** ** [DataFrame.to_sql] *)

Module Sql.

Inductive if_exists : Type :=
  | IfExistsFail
  | IfExistsReplace
  | IfExistsAppend.

(** [frame.to_sql(name, conn, if_exists=mode)] on a table that holds [old]
    ([None]: there is no such table yet).  The result is the new contents of
    the table, or [None] for the [ValueError] of mode ['fail']. *)
Definition to_sql {A} (mode : if_exists) (frame : list A)
    (old : option (list A)) : option (list A) :=
  match old with
  | None => Some frame
  | Some rows =>
      match mode with
      | IfExistsFail => None
      | IfExistsReplace => Some frame
      | IfExistsAppend => Some (rows ++ frame)
      end
  end.

End Sql.

(** ** Notebook 2: data preprocessing *)

Module Preprocess.

Section Engine.
(** The number parser behind [pd.to_numeric], on text that reads as a
    finite number or not at all: [None] on text that is not a number.
    Text that reads as an infinity is the matter of [RawTable]. *)
Variable parse_float : string -> option Q.
(** The running sums behind [rolling(window=7).std()]. *)
Variable rstd : Series.running_std.

(** [pd.to_numeric(v, errors='coerce')] on one cell of [sqlval]. *)
Definition to_numeric (v : sqlval) : float :=
  match v with
  | SqlNull => NaN
  | SqlReal q => Fin q
  | SqlText s =>
      match parse_float s with
      | Some q => Fin q
      | None => NaN
      end
  end.

(** The cell holds a number, or text that reads as one. *)
Definition is_numeric (v : sqlval) : bool :=
  match v with
  | SqlNull => false
  | SqlReal _ => true
  | SqlText s => bool_decide (is_Some (parse_float s))
  end.

(** The cleaning cell:
    [raw_data['Adj Close'] = pd.to_numeric(raw_data['Adj Close'], errors='coerce')]
    then [raw_data.dropna(subset=['Adj Close'])]. *)
Definition coerce (tbl : list (row sqlval)) : list (row float) :=
  map (set_adj_close to_numeric) tbl.

Definition dropna_adj_close (tbl : list (row float)) : list (row float) :=
  filter (fun r => isna (Adj_Close r) = false) tbl.

Definition clean (tbl : list (row sqlval)) : list (row float) :=
  dropna_adj_close (coerce tbl).

(** [raw_data.groupby('Ticker')[col].transform(f)],
    [.pct_change()] and [.shift(k)] of the same group-by. *)
Definition by_ticker (f : list float -> list float)
    (tbl : list (row float)) (col : list float) : list float :=
  GroupBy.transform NaN f (map Ticker tbl) col.

(** The feature-engineering cell, one derived column per statement. *)
Definition engineer (tbl : list (row float)) : list feat_row :=
  let adj := map Adj_Close tbl in
  let ma7 := by_ticker (Series.rolling 7 Series.mean) tbl adj in
  let ma14 := by_ticker (Series.rolling 14 Series.mean) tbl adj in
  let ret := by_ticker Series.pct_change tbl adj in
  let vol := by_ticker (Series.rolling_std rstd 7) tbl ret in
  let lag1 := by_ticker (Series.shift 1) tbl adj in
  let lag2 := by_ticker (Series.shift 2) tbl adj in
  imap (fun i r =>
          mkFeat r (nth i ma7 NaN) (nth i ma14 NaN) (nth i ret NaN)
                 (nth i vol NaN) (nth i lag1 NaN) (nth i lag2 NaN)) tbl.

(** Every derived column of the row holds a value. *)
Definition derived_defined (fr : feat_row) : bool :=
  negb (isna (MA7 fr)) && negb (isna (MA14 fr)) &&
  negb (isna (Daily_Return fr)) && negb (isna (Volatility fr)) &&
  negb (isna (Lag_1 fr)) && negb (isna (Lag_2 fr)).

(** No column of the row, raw or derived, is null: what [dropna()] keeps. *)
Definition no_null (fr : feat_row) : bool :=
  raw_complete (base fr) && negb (isna (Adj_Close (base fr))) &&
  derived_defined fr.

(** [processed_data = raw_data.dropna()]. *)
Definition dropna (tbl : list feat_row) : list feat_row :=
  filter (fun fr => no_null fr = true) tbl.

Definition process (tbl : list (row sqlval)) : list feat_row :=
  dropna (engineer (clean tbl)).

(** The database file: the raw table and, once written, the processed one. *)
Record database : Type := mkDb {
  stocks : list (row sqlval);
  processed_stocks : option (list feat_row)
}.

(** The whole notebook: [SELECT * FROM stocks], the cells above, then
    [processed_data.to_sql('processed_stocks', conn, if_exists='replace')].
    [None] stands for an exception of the write. *)
Definition run (db : database) : option database :=
  let raw_data := stocks db in
  let processed_data := process raw_data in
  written ← Sql.to_sql Sql.IfExistsReplace processed_data
              (processed_stocks db);
  Some (mkDb (stocks db) (Some written)).

(** The derived columns of the row at place [k] of a ticker's partition
    [grp], computed from that partition alone. *)
Definition group_features (grp : list (row float)) (k : nat) (r : row float)
  : feat_row :=
  let adj := map Adj_Close grp in
  let ret := Series.pct_change adj in
  mkFeat r
    (nth k (Series.rolling 7 Series.mean adj) NaN)
    (nth k (Series.rolling 14 Series.mean adj) NaN)
    (nth k ret NaN)
    (nth k (Series.rolling_std rstd 7 ret) NaN)
    (nth k (Series.shift 1 adj) NaN)
    (nth k (Series.shift 2 adj) NaN).

(** The rows of one ticker, in stored order. *)
Definition partition {A} (T : string) (tbl : list (row A)) : list (row A) :=
  filter (fun r => Ticker r = Some T) tbl.

Definition feat_partition (T : string) (tbl : list feat_row)
  : list feat_row :=
  filter (fun fr => Ticker (base fr) = Some T) tbl.
End Engine.

(** A number of the size of a price: not zero, and of magnitude between
    [2^-100] and [2^100], far more than any price needs. *)
Definition price_like (q : Q) : bool :=
  Qle_bool (1 / inject_Z (2 ^ 100)) (Qabs q) &&
  Qle_bool (Qabs q) (inject_Z (2 ^ 100)).

(** A row, after the cleaning cell, with every raw column present and an
    adjusted close of the size of a price. *)
Definition usable (r : row float) : bool :=
  raw_complete r &&
  match Adj_Close r with
  | Fin q => price_like q
  | _ => false
  end.

(** The finite adjusted closes of a list of rows, in order. *)
Definition adj_values (grp : list (row float)) : list Q :=
  Series.observations (map Adj_Close grp).

(** The six derived columns of a row. *)
Definition derived (fr : feat_row)
  : float * float * float * float * float * float :=
  (MA7 fr, MA14 fr, Daily_Return fr, Volatility fr, Lag_1 fr, Lag_2 fr).

(** A date-based reading of the feature definitions: the rows are put in
    ascending date order (stable insertion sort) before the engine runs. *)
Definition date_le {A} (r1 r2 : row A) : bool :=
  match Date r1, Date r2 with
  | Some d1, Some d2 => (d1 <=? d2)%Z
  | None, _ => true
  | Some _, None => false
  end.

Fixpoint insert_by_date {A} (r : row A) (tbl : list (row A)) : list (row A) :=
  match tbl with
  | [] => [r]
  | r' :: rest =>
      if date_le r r' then r :: tbl else r' :: insert_by_date r rest
  end.

Definition sort_by_date {A} (tbl : list (row A)) : list (row A) :=
  foldr insert_by_date [] tbl.

Fixpoint ascending {A} (tbl : list (row A)) : bool :=
  match tbl with
  | [] => true
  | r :: rest =>
      forallb (date_le r) rest && ascending rest
  end.

End Preprocess.

(** ** Notebook 2 on any table

    [sqlval] has the cells that the fetch notebook writes and text besides.
    A table named [stocks] may hold more: SQLite stores an infinity as a
    REAL, and [pd.to_numeric] reads text such as ['inf'] or ['1e999'] as an
    infinity, which is a number to [dropna].  The cleaning cell is modelled
    a second time on such cells; the engine that follows is the same. *)

Module RawTable.

Inductive cell : Type :=
  | Null
  | Real (q : Q)
  | Infinity
  | Text (s : string).

Section Engine.
(** The float parser behind [pd.to_numeric]: [None] on text that is not a
    number; an infinity on ['inf'], ['Infinity'] and digits out of range;
    [NaN] on ['nan']. *)
Variable parse_number : string -> option float.
Variable rstd : Series.running_std.

(** [pd.to_numeric(v, errors='coerce')] on one cell. *)
Definition to_numeric (v : cell) : float :=
  match v with
  | Null => NaN
  | Real q => Fin q
  | Infinity => Inf
  | Text s =>
      match parse_number s with
      | Some x => x
      | None => NaN
      end
  end.

(** The cell holds a number, finite or not, or text that reads as one. *)
Definition is_numeric (v : cell) : bool :=
  match v with
  | Null => false
  | Real _ => true
  | Infinity => true
  | Text s =>
      match parse_number s with
      | Some (Fin _) | Some Inf => true
      | Some NaN | None => false
      end
  end.

Definition coerce (tbl : list (row cell)) : list (row float) :=
  map (set_adj_close to_numeric) tbl.

Definition clean (tbl : list (row cell)) : list (row float) :=
  Preprocess.dropna_adj_close (coerce tbl).

Definition process (tbl : list (row cell)) : list feat_row :=
  Preprocess.dropna (Preprocess.engineer rstd (clean tbl)).

(** A raw row with every raw column present and an adjusted close that
    reads as a number of the size of a price. *)
Definition usable (r : row cell) : bool :=
  Preprocess.usable (set_adj_close to_numeric r).
End Engine.

(** The cells of [sqlval] among these, and a parser of finite numbers as a
    float parser. *)
Definition of_sqlval (v : sqlval) : cell :=
  match v with
  | SqlNull => Null
  | SqlReal q => Real q
  | SqlText s => Text s
  end.

Definition finite_parser (parse_float : string -> option Q) (s : string)
  : option float :=
  Fin <$> parse_float s.

End RawTable.

(** ** Notebook 1: data fetching *)

Module Fetch.

(** What a call can raise.  [except Exception] catches the first kind only;
    [KeyboardInterrupt] and [SystemExit] are of the second. *)
Inductive exn : Type :=
  | Exception (msg : string)
  | BaseException (msg : string).

Inductive result (A : Type) : Type :=
  | Ok (a : A)
  | Raise (e : exn).

Arguments Ok {A}.
Arguments Raise {A}.

(** An entry of the [stocks] list of the notebook. *)
Record stock : Type := mkStock {
  ticker : string;
  company : string
}.

(** What the notebook acts on: the [stocks] table of the database file and
    the printed lines. *)
Record state : Type := mkState {
  table : list (row sqlval);
  stdout : list string
}.

Section Fetcher.
(** [yf.download(ticker, ...)] with the index reset: the price rows, still
    without company and ticker, or an exception. *)
Variable yf_download : string -> result (list (row sqlval)).
(** Whether [to_sql(..., if_exists='append')] of a frame raises on the
    current table; the connection's context manager then rolls back. *)
Variable to_sql_error : list (row sqlval) -> list (row sqlval) -> option exn.

Definition add_metadata (company_name ticker : string) (r : row sqlval)
  : row sqlval :=
  mkRow (Date r) (Adj_Close r) (Close r) (High r) (Low r) (Open r)
        (Volume r) (Some company_name) (Some ticker).

Definition saved_message (ticker company_name : string) : string :=
  "Data for " +:+ company_name +:+ " (" +:+ ticker +:+
  ") saved to SQLite database.".

Definition error_message (ticker msg : string) : string :=
  "An error occurred while fetching data for " +:+ ticker +:+ ": " +:+ msg.

(** The body of the [try]. *)
Definition fetch_and_store_body (ticker company_name : string) (st : state)
  : result state :=
  match yf_download ticker with
  | Raise e => Raise e
  | Ok frame =>
      let stock_data := map (add_metadata company_name ticker) frame in
      match to_sql_error (table st) stock_data with
      | Some e => Raise e
      | None =>
          Ok (mkState (table st ++ stock_data)
                      (stdout st ++ [saved_message ticker company_name]))
      end
  end.

Definition fetch_and_store_data (ticker company_name : string) (st : state)
  : result state :=
  match fetch_and_store_body ticker company_name st with
  | Ok st' => Ok st'
  | Raise (Exception msg) =>
      Ok (mkState (table st) (stdout st ++ [error_message ticker msg]))
  | Raise (BaseException msg) => Raise (BaseException msg)
  end.

(** [for stock in stocks: fetch_and_store_data(...)]. *)
Fixpoint fetch_all (stocks : list stock) (st : state) : result state :=
  match stocks with
  | [] => Ok st
  | s :: rest =>
      match fetch_and_store_data (ticker s) (company s) st with
      | Ok st' => fetch_all rest st'
      | Raise e => Raise e
      end
  end.

(** The rows that one ticker contributes when its fetch and its store both
    succeed on the table [tbl]; none otherwise. *)
Definition contribution (s : stock) (tbl : list (row sqlval))
  : list (row sqlval) :=
  match yf_download (ticker s) with
  | Raise _ => []
  | Ok frame =>
      let stock_data := map (add_metadata (company s) (ticker s)) frame in
      match to_sql_error tbl stock_data with
      | Some _ => []
      | None => stock_data
      end
  end.

(** The call for this ticker raises something that [except Exception] does
    not catch. *)
Definition escapes (s : stock) (tbl : list (row sqlval)) : bool :=
  match fetch_and_store_body (ticker s) (company s) (mkState tbl []) with
  | Raise (BaseException _) => true
  | _ => false
  end.
End Fetcher.

End Fetch.

(** ** The training notebooks: splitting and scaling *)

Module Train.

(** A sample is the list of its feature values. *)
Definition sample : Type := list Q.

Definition Qmin' (a b : Q) : Q := if Qle_bool a b then a else b.
Definition Qmax' (a b : Q) : Q := if Qle_bool a b then b else a.

Definition column (j : nat) (X : list sample) : list Q :=
  map (fun s => nth j s 0%Q) X.

Definition columns (X : list sample) : list (list Q) :=
  map (fun j => column j X) (seq 0 (length (hd [] X))).

(** The machine epsilon of a double, [np.finfo(np.float64).eps]. *)
Definition eps : Q := 1 / inject_Z (2 ^ 52).

(** [_handle_zeros_in_scale(scale, constant_mask=...)]: the scale of a
    feature that is constant, or nearly so, is replaced by one before
    dividing.  Without a mask from the caller the near-constant features
    are those with a scale below ten epsilons. *)
Definition handle_zeros_in_scale (scale : Q) (constant_mask : option bool)
  : Q :=
  let constant :=
    match constant_mask with
    | Some m => m
    | None => negb (Qle_bool (10 * eps) scale)
    end in
  if constant then 1%Q else scale.

(** [_is_constant_feature(var, mean, n_samples)]: the variance is within
    the error bound of its own computation. *)
Definition is_constant_feature (var mean : Q) (n_samples : nat) : bool :=
  let n := inject_Z (Z.of_nat n_samples) in
  Qle_bool var (n * eps * var + (n * mean * eps) * (n * mean * eps)).

(** The scikit-learn scaler interface. [fit] raises on an empty array. *)
Class Scaler (P : Type) : Type := {
  fit : list sample -> option P;
  transform : P -> list sample -> list sample
}.

Definition fit_transform {P} `{Scaler P} (X : list sample)
  : option (P * list sample) :=
  p ← fit X; Some (p, transform p X).

(** [MinMaxScaler()] with the default range [0, 1]. *)
Record minmax_params : Type := mkMinMax {
  data_min_ : list Q;
  data_max_ : list Q
}.

Definition minmax_scale_ (p : minmax_params) : list Q :=
  zip_with (fun lo hi => (1 / handle_zeros_in_scale (hi - lo) None)%Q)
           (data_min_ p) (data_max_ p).

Definition minmax_min_ (p : minmax_params) : list Q :=
  zip_with (fun lo sc => (0 - lo * sc)%Q) (data_min_ p) (minmax_scale_ p).

Definition minmax_fit (X : list sample) : option minmax_params :=
  match X with
  | [] => None
  | _ =>
      Some (mkMinMax
              (map (fun c => foldr Qmin' (hd 0%Q c) c) (columns X))
              (map (fun c => foldr Qmax' (hd 0%Q c) c) (columns X)))
  end.

Definition minmax_transform (p : minmax_params) (X : list sample)
  : list sample :=
  map (fun s =>
         zip_with (fun x sm => (x * sm.1 + sm.2)%Q) s
                  (zip (minmax_scale_ p) (minmax_min_ p))) X.

#[export] Instance MinMaxScaler : Scaler minmax_params := {
  fit := minmax_fit;
  transform := minmax_transform
}.

(** [StandardScaler()]: zero mean, unit (population) variance. *)
Record standard_params : Type := mkStandard {
  mean_ : list Q;
  scale_ : list Q
}.

Definition Qvar0 (xs : list Q) : Q :=
  let m := Qmean xs in
  (Qsum (map (fun x => (x - m) * (x - m)) xs) / Qlen xs)%Q.

(** What a split returns. *)
Record split (A B : Type) : Type := mkSplit {
  X_train : list A;
  X_test : list A;
  y_train : list B;
  y_test : list B
}.

Arguments mkSplit {A B}.
Arguments X_train {A B}.
Arguments X_test {A B}.
Arguments y_train {A B}.
Arguments y_test {A B}.

(** What each trainer hands to its model. *)
Record prepared (P : Type) : Type := mkPrepared {
  scaler : P;
  X_train_scaled : list sample;
  X_test_scaled : list sample;
  train_target : list Q;
  test_target : list Q
}.

Arguments mkPrepared {P}.
Arguments scaler {P}.
Arguments X_train_scaled {P}.
Arguments X_test_scaled {P}.
Arguments train_target {P}.
Arguments test_target {P}.

Section Split.
Variable sqrtQ : Q -> Q.
(** [RandomState(42).permutation(n)], the shuffle behind
    [train_test_split(..., random_state=42)]. *)
Variable permutation : nat -> list nat.

Definition standard_fit (X : list sample) : option standard_params :=
  match X with
  | [] => None
  | _ =>
      Some (mkStandard
              (map Qmean (columns X))
              (map (fun c =>
                      handle_zeros_in_scale
                        (sqrtQ (Qvar0 c))
                        (Some (is_constant_feature (Qvar0 c) (Qmean c)
                                                   (length c))))
                   (columns X)))
  end.

Definition standard_transform (p : standard_params) (X : list sample)
  : list sample :=
  map (fun s =>
         zip_with (fun x ms => ((x - ms.1) / ms.2)%Q) s
                  (zip (mean_ p) (scale_ p))) X.

#[local] Instance StandardScaler : Scaler standard_params := {
  fit := standard_fit;
  transform := standard_transform
}.

(** The list holds each of the indices [0 .. n-1] once. *)
Definition is_shuffle (n : nat) (p : list nat) : bool :=
  bool_decide (NoDup p) && forallb (fun i => i <? n) p && (length p =? n).

Definition select {A} (idx : list nat) (l : list A) : list A :=
  omap (fun i => l !! i) idx.

(** [train_test_split(X, y, test_size=0.2, random_state=42)]: the test part
    is the first [ceil(0.2 n)] indices of the shuffle (the ceiling taken
    exactly), the training part the rest; an error when the lengths differ
    or the training part is empty. *)
Definition train_test_split {A B} (X : list A) (y : list B)
  : option (split A B) :=
  let n := length X in
  let n_test := (n + 4) / 5 in
  let n_train := n - n_test in
  if decide (length y = n /\ 0 < n_train) then
    let p := permutation n in
    let test := take n_test p in
    let train := take n_train (drop n_test p) in
    Some (mkSplit (select train X) (select test X)
                  (select train y) (select test y))
  else None.

(** Random Forest notebook, steps 4 and 5: split, fit the scaler on
    [X_train], transform [X_train] and [X_test]. *)
Definition rf_prepare (X : list sample) (y : list Q)
  : option (prepared standard_params) :=
  s ← train_test_split X y;
  '(sc, X_train_scaled) ← fit_transform (X_train s);
  Some (mkPrepared sc X_train_scaled (transform sc (X_test s))
                   (y_train s) (y_test s)).

(** LSTM notebook: [X_scaled = scaler.fit_transform(X)], then the split of
    [X_scaled]. *)
Definition lstm_prepare (X : list sample) (y : list Q)
  : option (prepared minmax_params) :=
  '(sc, X_scaled) ← fit_transform X;
  s ← train_test_split X_scaled y;
  Some (mkPrepared sc (X_train s) (X_test s) (y_train s) (y_test s)).

(** The LSTM preparation as the notebook's text describes it: the range
    scaler in the place of the standard one, in the shape of [rf_prepare]. *)
Definition lstm_prepare_as_documented (X : list sample) (y : list Q)
  : option (prepared minmax_params) :=
  s ← train_test_split X y;
  '(sc, X_train_scaled) ← fit_transform (X_train s);
  Some (mkPrepared sc X_train_scaled (transform sc (X_test s))
                   (y_train s) (y_test s)).
End Split.

End Train.

(** ** The feature definitions in the words of the specification

    Each is a function of the place [i] of a row in its ticker's partition
    and of the adjusted closes [adj] of that partition. *)

Module FeatureSpec.

(** Mean of adjusted close over rows [i-w+1 .. i]; null with fewer than [w]
    rows. *)
Definition moving_average (w i : nat) (adj : list Q) : float :=
  if decide (w <= S i) then Fin (Qmean (take w (drop (S i - w) adj)))
  else NaN.

(** [adjClose[i] / adjClose[i-1] - 1]; undefined at the first row. *)
Definition daily_return (i : nat) (adj : list Q) : float :=
  match i with
  | 0 => NaN
  | S j => fsub_fin (fdiv (Fin (nth i adj 0%Q)) (Fin (nth j adj 0%Q))) 1
  end.


(** [adjClose[i-k]]; undefined when [i - k < 0]. *)
Definition lag (k i : nat) (adj : list Q) : float :=
  if decide (k <= i) then Fin (nth (i - k) adj 0%Q) else NaN.

(** The engine run on the rows put in ascending date order. *)
Definition engineer_by_date (rstd : Series.running_std)
    (tbl : list (row float)) : list feat_row :=
  Preprocess.engineer rstd (Preprocess.sort_by_date tbl).

End FeatureSpec.

(** ** The running sums of the rolling deviation on binary64 numbers

    What [groupby('Ticker')['Daily Return'].rolling(window=7).std()]
    computes for one ticker, operation by operation on IEEE doubles (Rocq's
    primitive floats): the routine [roll_var] of pandas with its
    [add_var], [remove_var] and [calc_var], and the square root that turns
    a negative variance into zero.  Nothing is idealised here; the module
    serves to run the computation on concrete series. *)

Module Float64.
Import PrimFloat.
#[local] Open Scope float_scope.

Definition double : Set := PrimFloat.float.

Fixpoint of_nat (n : nat) : double :=
  match n with
  | O => 0
  | S m => of_nat m + 1
  end.

(** The exact value of a finite double. *)
Definition to_Q (x : double) : option Q :=
  match FloatOps.Prim2SF x with
  | SpecFloat.S754_zero _ => Some 0%Q
  | SpecFloat.S754_finite s m e =>
      let z := if s then Z.neg m else Z.pos m in
      Some (if (0 <=? e)%Z then inject_Z (z * 2 ^ e)
            else Qmake z (2 ^ Z.to_pos (- e)))
  | _ => None
  end.

(** [x.pct_change()] on doubles: forward fill, then
    [filled / filled.shift(1) - 1]. *)
Fixpoint ffill_from (last : double) (xs : list double) : list double :=
  match xs with
  | [] => []
  | x :: rest =>
      let v := if is_nan x then last else x in
      v :: ffill_from v rest
  end.

Definition pct_change (xs : list double) : list double :=
  let filled := ffill_from nan xs in
  zip_with (fun a b => a / b - 1) filled (nan :: filled).

(** The state that [roll_var] carries from row to row. *)
Record var_state : Type := mkVar {
  nobs : double;
  mean_x : double;
  ssqdm_x : double;
  compensation_add : double;
  compensation_remove : double;
  num_consecutive_same_value : nat;
  prev_value : double
}.

(** Welford's update with Kahan's compensation, as [add_var] has it. *)
Definition add_var (val : double) (st : var_state) : var_state :=
  if is_nan val then st
  else
    let nobs' := nobs st + 1 in
    let same :=
      if val =? prev_value st then S (num_consecutive_same_value st)
      else 1%nat in
    let prev_mean := mean_x st - compensation_add st in
    let y := val - compensation_add st in
    let t := y - mean_x st in
    let compensation := t + mean_x st - y in
    let delta := t in
    let mean := if is_zero nobs' then 0 else mean_x st + delta / nobs' in
    let ssqdm := ssqdm_x st + (val - prev_mean) * (val - mean) in
    mkVar nobs' mean ssqdm compensation (compensation_remove st) same val.

Definition remove_var (val : double) (st : var_state) : var_state :=
  if is_nan val then st
  else
    let nobs' := nobs st - 1 in
    if is_zero nobs' then
      mkVar nobs' 0 0 (compensation_add st) (compensation_remove st)
            (num_consecutive_same_value st) (prev_value st)
    else
      let prev_mean := mean_x st - compensation_remove st in
      let y := val - compensation_remove st in
      let t := y - mean_x st in
      let compensation := t + mean_x st - y in
      let delta := t in
      let mean := mean_x st - delta / nobs' in
      let ssqdm := ssqdm_x st - (val - prev_mean) * (val - mean) in
      mkVar nobs' mean ssqdm (compensation_add st) compensation
            (num_consecutive_same_value st) (prev_value st).

Definition calc_var (minp ddof : nat) (st : var_state) : double :=
  if (of_nat minp <=? nobs st) && (of_nat ddof <? nobs st) then
    if (nobs st =? 1) || (nobs st <=? of_nat (num_consecutive_same_value st))
    then 0
    else ssqdm_x st / (nobs st - of_nat ddof)
  else nan.

(** The window of row [i] is the rows [start w i .. i]. *)
Definition start (w i : nat) : nat := (S i - w)%nat.

(** One turn of the loop of [roll_var]: the first window, or one that does
    not overlap the previous one, is summed afresh; otherwise the rows
    that left are removed and the row that entered is added. *)
Definition roll_var_step (w minp ddof : nat) (values : list double)
    (st : var_state) (i : nat) : var_state * double :=
  let value j := nth j values nan in
  let s := start w i in
  let st' :=
    if (i =? 0)%nat || (i <=? s)%nat then
      foldl (fun st j => add_var (value j) st)
            (mkVar 0 0 0 0 0 O (value s)) (seq s (S i - s)%nat)
    else
      let removed :=
        foldl (fun st j => remove_var (value j) st) st
              (seq (start w (i - 1)%nat) (s - start w (i - 1))%nat) in
      foldl (fun st j => add_var (value j) st) removed (seq i 1%nat) in
  (st', calc_var minp ddof st').

Fixpoint roll_var_from (w minp ddof : nat) (values : list double)
    (st : var_state) (rows : list nat) : list double :=
  match rows with
  | [] => []
  | i :: rest =>
      let '(st', out) := roll_var_step w minp ddof values st i in
      out :: roll_var_from w minp ddof values st' rest
  end.

Definition roll_var (w minp ddof : nat) (values : list double)
  : list double :=
  roll_var_from w minp ddof values (mkVar 0 0 0 0 0 O nan)
                (seq O (length values)).

(** [np.sqrt] with the negative entries set to zero. *)
Definition zsqrt (x : double) : double := if x <? 0 then 0 else sqrt x.

(** Infinities become [NaN] before the aggregation. *)
Definition prep_values (xs : list double) : list double :=
  map (fun x => if is_infinity x then nan else x) xs.

(** [x.rolling(window=w).std()]: [min_periods] is [w], [ddof] is one. *)
Definition rolling_std (w : nat) (xs : list double) : list double :=
  map zsqrt (roll_var w w 1%nat (prep_values xs)).

(** [Daily Return] and [Volatility] of one ticker with these closes. *)
Definition daily_return (closes : list double) : list double :=
  pct_change closes.

Definition volatility (closes : list double) : list double :=
  rolling_std 7%nat (daily_return closes).

End Float64.

(** ** Concrete parameters for the examples *)

Module Examples.

Definition digit_of (c : Ascii.ascii) : option Z :=
  let n := Z.of_nat (Ascii.nat_of_ascii c) in
  if decide (48 <= n <= 57)%Z then Some (n - 48)%Z else None.

Fixpoint parse_digits (s : string) (acc : Z) : option Z :=
  match s with
  | EmptyString => Some acc
  | String c rest =>
      match digit_of c with
      | Some d => parse_digits rest (10 * acc + d)%Z
      | None => None
      end
  end.

(** A parser that reads unsigned decimal integers. *)
Definition parse_decimal (s : string) : option Q :=
  match s with
  | EmptyString => None
  | _ => inject_Z <$> parse_digits s 0
  end.

(** Square root truncated to six decimals. *)
Definition sqrt6 (q : Q) : Q :=
  Qmake (Z.sqrt (Qnum q * 10 ^ 12 / Zpos (Qden q))) (10 ^ 6).

(** Running sums without rounding: the sample deviation of the seven
    latest observations, with the root above. *)
Definition exact_std : Series.running_std :=
  Series.mkRunningStd
    (fun seen =>
       let obs := Series.observations seen in
       sqrt6 (Qvar (drop (length obs - 7) obs)))
    (fun _ => NaN).

(** A float parser: unsigned decimal integers, and ['inf'] and
    ['Infinity'] as the infinity. *)
Definition parse_number (s : string) : option float :=
  if decide (s = "inf" \/ s = "Infinity") then Some Inf
  else Fin <$> parse_decimal s.

(** A row of [sqlval] cells as a row of any cells. *)
Definition any_cell (r : row sqlval) : row RawTable.cell :=
  set_adj_close RawTable.of_sqlval r.

(** A complete raw row of Exxon Mobil. *)
Definition xom (day : Z) (adj : Z) : row sqlval :=
  mkRow (Some day) (SqlReal (inject_Z adj)) (Some (inject_Z (2 * adj)))
        (Some (inject_Z (2 * adj + 1))) (Some (inject_Z (2 * adj - 1)))
        (Some (inject_Z (2 * adj))) (Some 1000%Z) (Some "Exxon Mobil")
        (Some "XOM").

Definition cvx (day : Z) (adj : Z) : row sqlval :=
  mkRow (Some day) (SqlReal (inject_Z adj)) (Some (inject_Z (2 * adj)))
        (Some (inject_Z (2 * adj + 1))) (Some (inject_Z (2 * adj - 1)))
        (Some (inject_Z (2 * adj))) (Some 1000%Z) (Some "Chevron")
        (Some "CVX").

(** Days 1..15 with adjusted closes 10..24. *)
Definition xom15 : list (row sqlval) :=
  imap (fun i a => xom (Z.of_nat (S i)) a)
       [10; 11; 12; 13; 14; 15; 16; 17; 18; 19; 20; 21; 22; 23; 24]%Z.

Definition without_volume (r : row sqlval) : row sqlval :=
  mkRow (Date r) (Adj_Close r) (Close r) (High r) (Low r) (Open r)
        None (Company r) (Ticker r).

(** Sixteen complete days, except that day 15 has no volume. *)
Definition xom16_gap : list (row sqlval) :=
  xom15 ++ [xom 16 25].

Definition xom16_volume_gap : list (row sqlval) :=
  alter without_volume 14 xom16_gap.

(** Sixteen complete days whose adjusted close is zero on day 15. *)
Definition xom16_zero_close : list (row sqlval) :=
  alter (set_adj_close (fun _ => SqlReal 0)) 14 xom16_gap.

(** Fourteen complete days stored latest first. *)
Definition xom14_latest_first : list (row sqlval) :=
  imap (fun i a => xom (14 - Z.of_nat i) a)
       [23; 22; 21; 20; 19; 18; 17; 16; 15; 14; 13; 12; 11; 10]%Z.

(** The same rows after cleaning. *)
Definition xom_clean (day : Z) (adj : Z) : row float :=
  set_adj_close (fun _ => Fin (inject_Z adj)) (xom day adj).

(** Two days stored latest first. *)
Definition xom_latest_first : list (row float) :=
  [xom_clean 2 11; xom_clean 1 10].

(** A three-ticker batch in which the download of the second ticker fails. *)
Definition flaky_download (ticker : string)
  : Fetch.result (list (row sqlval)) :=
  if decide (ticker = "CVX")
  then Fetch.Raise (Fetch.Exception "connection reset")
  else Fetch.Ok [mkRow (Some 1%Z) (SqlReal 10) (Some 10%Q) (Some 11%Q)
                       (Some 9%Q) (Some 10%Q) (Some 1000%Z) None None].

Definition to_sql_succeeds (tbl frame : list (row sqlval))
  : option Fetch.exn := None.

Definition three_stocks : list Fetch.stock :=
  [Fetch.mkStock "XOM" "Exxon Mobil"; Fetch.mkStock "CVX" "Chevron";
   Fetch.mkStock "COP" "ConocoPhillips"].

(** Five samples of five features, sample [i] being twice the [i]-th unit
    vector, and their targets. *)
Definition X5 : list Train.sample :=
  [[2; 0; 0; 0; 0]; [0; 2; 0; 0; 0]; [0; 0; 2; 0; 0]; [0; 0; 0; 2; 0];
   [0; 0; 0; 0; 2]]%Q.

Definition y5 : list Q := [10; 11; 12; 13; 14]%Q.

(** A shuffle of five indices; any other would do. *)
Definition shuffle (n : nat) : list nat :=
  match n with
  | 5 => [1; 4; 2; 0; 3]
  | _ => seq 0 n
  end.


End Examples.

(** ** A series for the running sums *)

Module Float64Examples.
Import PrimFloat.

(** Thirteen closes of 1, then one of [2^600]. *)
Definition leap_closes : list Float64.double :=
  [1; 1; 1; 1; 1; 1; 1; 1; 1; 1; 1; 1; 1; 0x1p+600]%float.


End Float64Examples.

(** ** What a batch of fetches may add to the table *)

Module FetchedRows.
Import Fetch.

Section Download.
Variable yf_download : string -> result (list (row sqlval)).

(** The rows that one listed stock may add: the rows of its download with
    its company and ticker filled in. *)
Definition fetched_for (stocks : list stock) (r : row sqlval) : Prop :=
  exists s frame r0,
    s ∈ stocks /\ yf_download (ticker s) = Ok frame /\ r0 ∈ frame /\
    r = add_metadata (company s) (ticker s) r0.

(** The rows that a batch adds when the store never fails. *)
Definition downloaded (stocks : list stock) : list (row sqlval) :=
  flat_map (fun s =>
              match yf_download (ticker s) with
              | Ok frame => map (add_metadata (company s) (ticker s)) frame
              | Raise _ => []
              end) stocks.

End Download.

End FetchedRows.

(** ** Column headers of the downloaded frame *)

Module Columns.

(** A column label: a name, or with multi-level headers the tuple of the
    names of its levels. *)
Inductive label : Type :=
  | Name (s : string)
  | Levels (parts : list string).

Definition is_name (col : label) : bool :=
  match col with Name _ => true | Levels _ => false end.

(** [col[0] if isinstance(col, tuple) else col]; an empty tuple has no
    first part and [col[0]] raises [IndexError] ([None]). *)
Definition flatten_label (col : label) : option label :=
  match col with
  | Name s => Some (Name s)
  | Levels [] => None
  | Levels (first :: _) => Some (Name first)
  end.

(** [[col[0] if isinstance(col, tuple) else col for col in stock_data.columns]]. *)
Definition flatten (columns : list label) : option (list label) :=
  mapM flatten_label columns.

End Columns.

(** ** What the trainers read and write *)

Module Trainer.

(** [features = ['7-day MA', '14-day MA', 'Volatility', 'Lag_1', 'Lag_2']]
    and [target = 'Adj Close']. *)
Definition features (fr : feat_row) : list float :=
  [MA7 fr; MA14 fr; Volatility fr; Lag_1 fr; Lag_2 fr].

Definition target (fr : feat_row) : float := Adj_Close (base fr).

(** [ticker_data = data[data['Ticker'] == default_ticker]]. *)
Definition ticker_data (default_ticker : string) (data : list feat_row)
  : list feat_row :=
  filter (fun fr => Ticker (base fr) = Some default_ticker) data.

Definition finite (x : float) : option Q :=
  match x with Fin q => Some q | _ => None end.

(** [X = ticker_data[features]] and [y = ticker_data[target]] as the
    matrices of numbers that the scalers of [Train] work on; [None] when a
    value is not a finite number. *)
Definition feature_matrix (rows : list feat_row) : option (list Train.sample) :=
  mapM (fun fr => mapM finite (features fr)) rows.

Definition target_vector (rows : list feat_row) : option (list Q) :=
  mapM (fun fr => finite (target fr)) rows.

(** The value lies in the target range of [MinMaxScaler()]. *)
Definition in_unit_range (v : Q) : Prop := (0 <= v)%Q /\ (v <= 1)%Q.

(** The names of the saved artifacts:
    [f'models/model_{default_ticker}_rf.pkl'] and so on. *)
Definition rf_model_filename (default_ticker : string) : string :=
  "models/model_" +:+ default_ticker +:+ "_rf.pkl".

Definition rf_scaler_filename (default_ticker : string) : string :=
  "models/scaler_" +:+ default_ticker +:+ "_rf.pkl".

Definition lstm_model_filename (default_ticker : string) : string :=
  "models/model_" +:+ default_ticker +:+ "_lstm.h5".

Definition lstm_scaler_filename (default_ticker : string) : string :=
  "models/scaler_" +:+ default_ticker +:+ "_lstm.pkl".

End Trainer.

(** ** More concrete inputs *)

Module MoreExamples.

(** A download that is interrupted from the keyboard on the second
    ticker. *)
Definition interrupted_download (ticker : string)
  : Fetch.result (list (row sqlval)) :=
  if decide (ticker = "CVX")
  then Fetch.Raise (Fetch.BaseException "KeyboardInterrupt")
  else Fetch.Ok [mkRow (Some 1%Z) (SqlReal 10) (Some 10%Q) (Some 11%Q)
                       (Some 9%Q) (Some 10%Q) (Some 1000%Z) None None].

(** The two-level headers of a download for one ticker. *)
Definition xom_headers : list Columns.label :=
  map (fun field => Columns.Levels [field; "XOM"])
      ["Adj Close"; "Close"; "High"; "Low"; "Open"; "Volume"].

(** Fourteen complete days of one ticker. *)
Definition xom14 : list (row sqlval) := take 14 Examples.xom15.

(** Twenty-two complete days: fourteen at [2^-600], then eight at
    [2^600]. *)
Definition xom22_out_of_range : list (row RawTable.cell) :=
  imap (fun i a =>
          set_adj_close (fun _ => RawTable.Real a)
                        (Examples.xom (Z.of_nat (S i)) 1))
       (replicate 14 (1 / inject_Z (2 ^ 600))%Q
        ++ replicate 8 (inject_Z (2 ^ 600))).

End MoreExamples.

(** * Properties *)

(** ** Grouped transforms *)

Module GroupByFacts.
Import GroupBy.

Section Lists.
Context {X Y : Type}.

Lemma filter_all (P : X -> Prop) `{!forall x, Decision (P x)} (l : list X) :
  Forall P l -> filter P l = l.
Proof.
  induction 1; [done|].
  rewrite filter_cons, decide_True by done. by f_equal.
Qed.

Lemma filter_none (P : X -> Prop) `{!forall x, Decision (P x)} (l : list X) :
  Forall (fun x => ~ P x) l -> filter P l = [].
Proof.
  induction 1; [done|].
  by rewrite filter_cons, decide_False by done.
Qed.

(** Filtering an indexed map whose entries depend on the index only through
    the number of earlier selected entries. *)
Lemma filter_imap_rank (P : X -> Prop) `{!forall x, Decision (P x)}
    (R : Y -> Prop) `{!forall y, Decision (R y)}
    (h h' : nat -> X -> Y) (l : list X) :
  (forall i x, l !! i = Some x -> (R (h i x) <-> P x)) ->
  (forall i x, l !! i = Some x -> P x ->
     h i x = h' (length (filter P (take i l))) x) ->
  filter R (imap h l) = imap h' (filter P l).
Proof.
  induction l as [|x l IH] using rev_ind; intros HR Hh; [done|].
  rewrite imap_app, !filter_app, imap_app. simpl.
  assert (Hpre : forall i y, l !! i = Some y -> (l ++ [x]) !! i = Some y).
  { intros i y Hi. by rewrite lookup_app_l by (by eapply lookup_lt_Some). }
  f_equal.
  - apply IH.
    + intros i y Hi. apply (HR i y), Hpre, Hi.
    + intros i y Hi Hy. rewrite (Hh i y (Hpre _ _ Hi) Hy).
      rewrite take_app_le by (apply Nat.lt_le_incl; by eapply lookup_lt_Some).
      done.
  - assert (Hx : (l ++ [x]) !! length l = Some x).
    { rewrite lookup_app_r by lia. by rewrite Nat.sub_diag. }
    rewrite Nat.add_0_r.
    rewrite !filter_cons, !filter_nil.
    destruct (decide (P x)) as [HP|HP].
    + rewrite decide_True by (by apply (HR _ _ Hx)).
      simpl. rewrite (Hh _ _ Hx HP), Nat.add_0_r.
      rewrite take_app_le, take_ge by lia. done.
    + rewrite decide_False; [done|]. intros HQ. by apply HP, (HR _ _ Hx).
Qed.
End Lists.

Section Transform.
Context {K : Type} `{EqDecision K} {A : Type}.
Implicit Types (g : K) (keys : list (option K)) (vals : list A).

Lemma transform_length d f keys vals :
  length (transform d f keys vals) = length keys.
Proof. unfold transform. by rewrite length_imap. Qed.

Lemma rank_lt_group g i keys vals :
  length keys = length vals ->
  keys !! i = Some (Some g) ->
  rank g i keys < length (group_values g keys vals).
Proof.
  intros Hlen Hi. unfold rank, group_values.
  rewrite length_fmap.
  assert (Hf : forall (ks : list (option K)) (vs : list A),
             length ks = length vs ->
             length (filter (fun kv => kv.1 = Some g) (zip ks vs))
             = length (filter (fun k => k = Some g) ks)).
  { induction ks as [|k ks IH]; intros [|v vs] Hl; simplify_eq/=; [done|].
    rewrite !filter_cons. simpl. specialize (IH vs Hl).
    destruct (decide (k = Some g)); simpl; by rewrite IH. }
  rewrite (Hf _ _ Hlen).
  rewrite <- (take_drop i keys) at 2.
  rewrite filter_app, length_app.
  rewrite (drop_S _ _ _ Hi), filter_cons, decide_True by done.
  simpl. lia.
Qed.

Lemma lookup_transform d f keys vals i g :
  keys !! i = Some (Some g) ->
  nth i (transform d f keys vals) d
  = nth (rank g i keys) (f (group_values g keys vals)) d.
Proof.
  intros Hi. unfold transform.
  by rewrite nth_lookup, list_lookup_imap, Hi.
Qed.

Lemma imap_nth_id {B} (l : list B) (F : list A) d :
  length F = length l ->
  imap (fun k _ => nth k F d) l = F.
Proof.
  intros Hlen. apply list_eq. intros i.
  rewrite list_lookup_imap.
  destruct (l !! i) as [x|] eqn:Hi; simpl.
  - apply lookup_lt_Some in Hi. rewrite nth_lookup.
    destruct (F !! i) eqn:HF; [done|].
    apply lookup_ge_None in HF. lia.
  - apply lookup_ge_None in Hi. symmetry. apply lookup_ge_None. lia.
Qed.

(** The results of a group, read back from the transformed column, are the
    function applied to the values of the group. *)
Lemma group_values_transform d f g keys vals :
  length keys = length vals ->
  (forall l, length (f l) = length l) ->
  group_values g keys (transform d f keys vals)
  = f (group_values g keys vals).
Proof.
  intros Hlen Hf.
  set (F := f (group_values g keys vals)).
  unfold group_values at 1, transform.
  set (h := fun (i : nat) (k : option K) =>
              match k with
              | Some g' => nth (rank g' i keys) (f (group_values g' keys vals)) d
              | None => d
              end).
  assert (Hzip : zip keys (imap h keys) = imap (fun i k => (k, h i k)) keys).
  { apply list_eq. intros i.
    rewrite lookup_zip_with, !list_lookup_imap.
    by destruct (keys !! i). }
  rewrite Hzip.
  rewrite (filter_imap_rank (fun k => k = Some g) (fun kv => kv.1 = Some g)
             _ (fun (j : nat) (k : option K) => (k, nth j F d))).
  - rewrite fmap_imap. unfold compose. simpl.
    apply imap_nth_id. unfold F. rewrite Hf.
    unfold group_values. rewrite length_fmap.
    clear -Hlen. revert vals Hlen.
    induction keys as [|k ks IH]; intros [|v vs] Hl; simplify_eq/=; [done|].
    rewrite !filter_cons. simpl. specialize (IH vs Hl).
    destruct (decide (k = Some g)); simpl; by rewrite IH.
  - intros i k _. done.
  - intros i k _ ->. done.
Qed.

(** With a single group the transform is the function itself. *)
Lemma group_values_all g keys vals :
  length keys = length vals ->
  Forall (fun k => k = Some g) keys ->
  group_values g keys vals = vals.
Proof.
  unfold group_values. revert vals.
  induction keys as [|k ks IH]; intros [|v vs] Hl Hall; simplify_eq/=; [done|].
  inversion Hall; subst. rewrite filter_cons, decide_True by done.
  simpl. f_equal. by apply IH.
Qed.
End Transform.

End GroupByFacts.

(** ** Series operations *)

Module SeriesFacts.
Import Series.

Lemma shift_length k xs : length (shift k xs) = length xs.
Proof.
  unfold shift. rewrite length_take, length_app, length_replicate. lia.
Qed.

Lemma ffill_from_length last xs : length (ffill_from last xs) = length xs.
Proof. revert last. induction xs; intros; simpl; auto. Qed.

Lemma pct_change_length xs : length (pct_change xs) = length xs.
Proof.
  unfold pct_change, ffill.
  rewrite length_zip_with, shift_length, ffill_from_length. lia.
Qed.

Lemma rolling_length w agg xs : length (rolling w agg xs) = length xs.
Proof. unfold rolling. by rewrite length_map, length_seq. Qed.

Lemma ffill_from_fin last (qs : list Q) :
  ffill_from last (map Fin qs) = map Fin qs.
Proof. revert last. induction qs; intros; simpl; [done|]. by rewrite IHqs. Qed.

Lemma prep_values_fin (qs : list Q) : prep_values (map Fin qs) = map Fin qs.
Proof. unfold prep_values. induction qs; simpl; [done|]. by f_equal. Qed.

Lemma observations_fin (qs : list Q) : observations (map Fin qs) = qs.
Proof.
  unfold observations. induction qs as [|q qs IH]; [done|].
  cbn. f_equal. exact IH.
Qed.

Lemma observations_prep xs :
  observations (prep_values xs) = observations xs.
Proof.
  unfold observations, prep_values.
  induction xs as [|[q| |] xs IH]; [done|cbn; f_equal; exact IH|exact IH..].
Qed.

Lemma observations_length_le xs : length (observations xs) <= length xs.
Proof.
  unfold observations.
  induction xs as [|[q| |] xs IH]; cbn in *; lia.
Qed.

(** A list has as many observations as entries exactly when all are finite. *)
Lemma observations_full xs :
  length xs <= length (observations xs) <-> forallb is_fin xs = true.
Proof.
  induction xs as [|[q| |] xs IH].
  - done.
  - change (observations (Fin q :: xs)) with (q :: observations xs).
    simpl. rewrite <- IH. lia.
  - change (observations (Inf :: xs)) with (observations xs).
    pose proof (observations_length_le xs). simpl. split; [lia|done].
  - change (observations (NaN :: xs)) with (observations xs).
    pose proof (observations_length_le xs). simpl. split; [lia|done].
Qed.

Lemma window_fmap {A B} (f : A -> B) w i (xs : list A) :
  window w i (map f xs) = map f (window w i xs).
Proof.
  unfold window.
  change (map f) with (fmap (M:=list) f).
  by rewrite fmap_drop, fmap_take.
Qed.

Lemma window_length {A} w i (xs : list A) :
  i < length xs -> length (window w i xs) = Nat.min w (S i).
Proof. intros Hi. unfold window. rewrite length_drop, length_take. lia. Qed.

Lemma window_slice {A} w i (xs : list A) :
  w <= S i -> window w i xs = take w (drop (S i - w) xs).
Proof.
  intros Hw. unfold window. rewrite take_drop_commute.
  by replace (S i - w + w) with (S i) by lia.
Qed.

Lemma nth_rolling w agg xs i :
  i < length xs ->
  nth i (rolling w agg xs) NaN
  = (if decide (w <= length (observations (window w i (prep_values xs))))
     then agg (observations (window w i (prep_values xs))) else NaN).
Proof.
  intros Hi. unfold rolling. rewrite nth_lookup.
  change (map ?f ?l) with (fmap (M:=list) f l) at 1.
  rewrite list_lookup_fmap, lookup_seq_lt by done. done.
Qed.

Lemma nth_rolling_ge w agg xs i :
  length xs <= i -> nth i (rolling w agg xs) NaN = NaN.
Proof.
  intros Hi. rewrite nth_lookup.
  rewrite (proj2 (lookup_ge_None _ _)); [done|].
  by rewrite rolling_length.
Qed.

(** On a column of finite numbers the rolling aggregate is the aggregate of
    the last [w] values, [NaN] on the first [w - 1] rows. *)
Lemma nth_rolling_fin w agg (qs : list Q) i :
  i < length qs ->
  nth i (rolling w agg (map Fin qs)) NaN
  = (if decide (w <= S i) then agg (take w (drop (S i - w) qs)) else NaN).
Proof.
  intros Hi. rewrite nth_rolling by (by rewrite length_map).
  rewrite prep_values_fin, window_fmap, observations_fin.
  rewrite window_length by done.
  destruct (decide (w <= S i)) as [Hw|Hw].
  - rewrite decide_True by lia. by rewrite window_slice.
  - rewrite decide_False by lia. done.
Qed.

Lemma nth_shift k xs i :
  i < length xs ->
  nth i (shift k xs) NaN = (if decide (i < k) then NaN else nth (i - k) xs NaN).
Proof.
  intros Hi. unfold shift. rewrite !nth_lookup.
  rewrite lookup_take_lt by done.
  destruct (decide (i < k)) as [Hk|Hk].
  - rewrite lookup_app_l by (rewrite length_replicate; lia).
    by rewrite lookup_replicate_2.
  - rewrite lookup_app_r by (rewrite length_replicate; lia).
    by rewrite length_replicate.
Qed.

Lemma nth_pct_change_fin (qs : list Q) i :
  i < length qs ->
  nth i (pct_change (map Fin qs)) NaN
  = match i with
    | 0 => NaN
    | S j => fsub_fin (fdiv (Fin (nth i qs 0%Q)) (Fin (nth j qs 0%Q))) 1
    end.
Proof.
  intros Hi. unfold pct_change, ffill. rewrite ffill_from_fin.
  assert (Hq : forall j, j < length qs ->
                 map Fin qs !! j = Some (Fin (nth j qs 0%Q))).
  { intros j Hj. change (map Fin qs) with (Fin <$> qs).
    rewrite list_lookup_fmap, nth_lookup.
    destruct (qs !! j) eqn:E; [done|]. apply lookup_ge_None in E. lia. }
  assert (Hs : shift 1 (map Fin qs) !! i
               = Some (match i with 0 => NaN | S j => Fin (nth j qs 0%Q) end)).
  { pose proof (nth_shift 1 (map Fin qs) i) as Hn.
    rewrite length_map in Hn. specialize (Hn Hi).
    rewrite nth_lookup in Hn.
    destruct (shift 1 (map Fin qs) !! i) as [v|] eqn:E.
    - simpl in Hn. subst v. f_equal.
      destruct i as [|j]; [done|].
      rewrite decide_False by lia.
      rewrite nth_lookup. replace (S j - 1) with j by lia.
      rewrite Hq by lia. done.
    - apply lookup_ge_None in E. rewrite shift_length, length_map in E. lia. }
  rewrite nth_lookup, lookup_zip_with, (Hq i Hi), Hs. simpl.
  destruct i; done.
Qed.



(** The entries of a column up to a row decide its returns up to that
    row. *)
Lemma ffill_from_take last n xs :
  ffill_from last (take n xs) = take n (ffill_from last xs).
Proof.
  revert last n. induction xs as [|x xs IH]; intros last [|n]; simpl; try done.
  by rewrite IH.
Qed.

Lemma shift_take k n xs : shift k (take n xs) = take n (shift k xs).
Proof.
  unfold shift. apply list_eq. intros i.
  destruct (decide (i < n)) as [Hn|Hn];
    [|by rewrite (lookup_take_ge _ n), lookup_take_ge
        by (rewrite ?length_take; lia)].
  rewrite (lookup_take_lt _ n) by done.
  destruct (decide (i < length xs)) as [Hi|Hi];
    [|by rewrite !lookup_take_ge by (rewrite ?length_take; lia)].
  rewrite !lookup_take_lt by (rewrite ?length_take; lia).
  destruct (decide (i < k)) as [Hk|Hk].
  - by rewrite !lookup_app_l by (rewrite length_replicate; lia).
  - rewrite !lookup_app_r by (rewrite length_replicate; lia).
    rewrite length_replicate. apply lookup_take_lt. lia.
Qed.

Lemma pct_change_take n xs : pct_change (take n xs) = take n (pct_change xs).
Proof.
  unfold pct_change, ffill.
  rewrite ffill_from_take, shift_take.
  set (f := ffill_from NaN xs). set (g := shift 1 f).
  apply list_eq. intros i.
  destruct (decide (i < n)) as [Hi|Hi].
  - by rewrite lookup_take_lt, !lookup_zip_with, !lookup_take_lt by done.
  - rewrite lookup_take_ge by lia.
    rewrite lookup_zip_with, (lookup_take_ge f) by lia. done.
Qed.

(** *** The rolling standard deviation *)

Lemma rolling_std_length rstd w xs :
  length (rolling_std rstd w xs) = length xs.
Proof. unfold rolling_std. by rewrite length_map, length_seq. Qed.

Lemma forallb_is_fin_prep xs :
  forallb is_fin (prep_values xs) = forallb is_fin xs.
Proof.
  unfold prep_values.
  induction xs as [|[q| |] xs IH]; simpl; [done|exact IH|done..].
Qed.

Lemma prep_values_take n xs :
  prep_values (take n xs) = take n (prep_values xs).
Proof.
  unfold prep_values. change (map ?f ?l) with (fmap (M:=list) f l).
  by rewrite fmap_take.
Qed.

(** A window holds [w] observations exactly when it is [w] long and all
    its entries are finite. *)
Lemma window_full w i xs :
  i < length xs ->
  w <= length (observations (window w i (prep_values xs)))
  <-> w <= S i /\ forallb is_fin (window w i xs) = true.
Proof.
  intros Hi. unfold prep_values at 1. rewrite window_fmap.
  fold (prep_values (window w i xs)). rewrite observations_prep.
  pose proof (observations_full (window w i xs)) as Hfull.
  pose proof (observations_length_le (window w i xs)) as Hle.
  rewrite window_length in Hfull, Hle by done.
  rewrite <- Hfull. lia.
Qed.

Lemma window_entry w i j xs :
  i < length xs -> w <= S i ->
  forallb is_fin (window w i xs) = true ->
  S i - w <= j <= i ->
  is_fin (nth j xs NaN) = true.
Proof.
  intros Hi Hw Hall Hj. rewrite window_slice in Hall by done.
  rewrite forallb_forall in Hall. apply Hall.
  apply list_elem_of_In, list_elem_of_lookup. exists (j - (S i - w)).
  rewrite lookup_take_lt, lookup_drop by lia.
  replace (S i - w + (j - (S i - w))) with j by lia.
  rewrite nth_lookup. destruct (xs !! j) eqn:E; [done|].
  apply lookup_ge_None in E. lia.
Qed.

Lemma nth_rolling_std rstd w xs i :
  i < length xs ->
  nth i (rolling_std rstd w xs) NaN
  = (if decide (w <= length (observations (window w i (prep_values xs)))
                /\ 1 < length (observations (window w i (prep_values xs))))
     then if forallb moderate (observations (take (S i) (prep_values xs)))
          then Fin (std_value rstd (take (S i) (prep_values xs)))
          else std_beyond rstd (take (S i) (prep_values xs))
     else NaN).
Proof.
  intros Hi. unfold rolling_std. rewrite nth_lookup.
  change (map ?f ?l) with (fmap (M:=list) f l) at 1.
  rewrite list_lookup_fmap, lookup_seq_lt by done. done.
Qed.

(** Outside the column, and where the window is short of [w] finite
    entries, there is no deviation. *)
Lemma nth_rolling_std_defined rstd w xs i :
  isna (nth i (rolling_std rstd w xs) NaN) = false ->
  i < length xs /\ w <= S i /\ forallb is_fin (window w i xs) = true.
Proof.
  intros Hna.
  destruct (decide (i < length xs)) as [Hi|Hi].
  - split; [done|]. rewrite nth_rolling_std in Hna by done.
    destruct (decide _) as [[Hw _]|]; [|done].
    by apply window_full in Hw.
  - rewrite nth_lookup in Hna.
    rewrite (proj2 (lookup_ge_None _ _)) in Hna; [done|].
    rewrite rolling_std_length. lia.
Qed.

(** With [w] finite entries in the window and nothing but moderate values
    so far, the running sums arrive at a number. *)
Lemma nth_rolling_std_fin rstd w xs i :
  i < length xs -> w <= S i -> 1 < w ->
  forallb is_fin (window w i xs) = true ->
  forallb moderate (observations (take (S i) xs)) = true ->
  nth i (rolling_std rstd w xs) NaN
  = Fin (std_value rstd (take (S i) (prep_values xs))).
Proof.
  intros Hi Hw H1 Hall Hmod. rewrite nth_rolling_std by done.
  assert (Hfull : w <= length (observations (window w i (prep_values xs))))
    by (by apply window_full).
  rewrite decide_True by lia.
  by rewrite <- prep_values_take, observations_prep, Hmod.
Qed.


Lemma nth_pct_change_take xs i :
  i < length xs ->
  nth i (pct_change (take (S i) xs)) NaN = nth i (pct_change xs) NaN.
Proof.
  intros Hi. rewrite pct_change_take, !nth_lookup.
  by rewrite lookup_take_lt by lia.
Qed.

End SeriesFacts.

(** ** The feature engine *)

Module PreprocessFacts.
Import GroupBy Series Preprocess GroupByFacts SeriesFacts.

(** *** The engine on a cleaned table *)

Section Features.
Variable rstd : running_std.

#[local] Abbreviation engineer := (engineer rstd).
#[local] Abbreviation group_features := (group_features rstd).

Lemma partition_all {A} T (grp : list (row A)) :
  Forall (fun r => Ticker r = Some T) grp -> partition T grp = grp.
Proof.
  apply filter_all.
Qed.

Lemma partition_Forall {A} T (tbl : list (row A)) :
  Forall (fun r => Ticker r = Some T) (partition T tbl).
Proof.
  apply Forall_forall. intros r Hr.
  by apply list_elem_of_filter in Hr as [? _].
Qed.

Lemma group_values_ticker {A B} T (col : row A -> B) (tbl : list (row A)) :
  group_values T (map Ticker tbl) (map col tbl) = map col (partition T tbl).
Proof.
  unfold group_values, partition.
  induction tbl as [|r tbl IH]; [done|].
  cbn [map zip zip_with]. rewrite !filter_cons. cbn [fst].
  destruct (decide (Ticker r = Some T)); cbn [fmap list_fmap map snd];
    [f_equal|]; exact IH.
Qed.

Lemma rank_ticker {A} T i (tbl : list (row A)) :
  rank T i (map Ticker tbl)
  = length (filter (fun r => Ticker r = Some T) (take i tbl)).
Proof.
  unfold rank. revert i.
  induction tbl as [|r tbl IH]; intros [|i]; simpl; try done.
  rewrite !filter_cons.
  destruct (decide (Ticker r = Some T)); simpl; by rewrite IH.
Qed.

Lemma by_ticker_length f tbl col :
  length (by_ticker f tbl col) = length tbl.
Proof. unfold by_ticker. by rewrite transform_length, length_map. Qed.

(** A row's derived columns come from the partition of its own ticker. *)
Lemma engineer_row (tbl : list (row float)) i r T :
  tbl !! i = Some r -> Ticker r = Some T ->
  engineer tbl !! i
  = Some (group_features (partition T tbl)
            (length (filter (fun r => Ticker r = Some T) (take i tbl))) r).
Proof.
  intros Hi HT. unfold Preprocess.engineer.
  rewrite list_lookup_imap, Hi. simpl. f_equal.
  assert (Hk : map Ticker tbl !! i = Some (Some T)).
  { change (map Ticker tbl) with (Ticker <$> tbl).
    by rewrite list_lookup_fmap, Hi, <- HT. }
  unfold by_ticker, Preprocess.group_features.
  rewrite !(lookup_transform _ _ _ _ _ _ Hk).
  rewrite group_values_transform;
    [|by rewrite !length_map|apply pct_change_length].
  rewrite !group_values_ticker, rank_ticker. done.
Qed.

(** The engine commutes with taking the rows of one ticker. *)
Lemma engineer_partition_imap T (tbl : list (row float)) :
  feat_partition T (engineer tbl)
  = imap (group_features (partition T tbl)) (partition T tbl).
Proof.
  unfold feat_partition, partition at 2.
  rewrite <- (filter_imap_rank (fun r : row float => Ticker r = Some T)
                (fun fr => Ticker (base fr) = Some T)
                (fun i r => default (mkFeat r NaN NaN NaN NaN NaN NaN)
                                    (engineer tbl !! i))).
  - f_equal. apply list_eq. intros i.
    rewrite list_lookup_imap. unfold Preprocess.engineer at 1.
    rewrite list_lookup_imap.
    destruct (tbl !! i) as [r|] eqn:Hi; [|done]. simpl.
    unfold Preprocess.engineer. by rewrite list_lookup_imap, Hi.
  - intros i r Hi. unfold Preprocess.engineer.
    by rewrite list_lookup_imap, Hi.
  - intros i r Hi HT. by rewrite (engineer_row _ _ _ _ Hi HT).
Qed.

Lemma engineer_single T (grp : list (row float)) :
  Forall (fun r => Ticker r = Some T) grp ->
  engineer grp = imap (group_features grp) grp.
Proof.
  intros Hall.
  rewrite <- (partition_all T grp Hall) at 2 3.
  rewrite <- engineer_partition_imap.
  unfold feat_partition. symmetry.
  apply filter_all, Forall_forall. intros fr Hfr.
  apply list_elem_of_lookup in Hfr as [i Hi].
  unfold Preprocess.engineer in Hi.
  rewrite list_lookup_imap in Hi.
  destruct (grp !! i) as [r|] eqn:Hr; simplify_eq/=.
  eapply Forall_lookup_1 in Hall; eauto.
Qed.

Lemma engineer_partition T (tbl : list (row float)) :
  feat_partition T (engineer tbl) = engineer (partition T tbl).
Proof.
  rewrite engineer_partition_imap.
  symmetry. apply (engineer_single T), partition_Forall.
Qed.

Lemma engineer_length tbl : length (engineer tbl) = length tbl.
Proof. unfold Preprocess.engineer. by rewrite length_imap. Qed.

Lemma engineer_base tbl : map base (engineer tbl) = tbl.
Proof.
  unfold Preprocess.engineer. apply list_eq. intros i.
  change (map base ?l) with (base <$> l).
  rewrite list_lookup_fmap, list_lookup_imap.
  by destruct (tbl !! i).
Qed.

Lemma feat_partition_dropna T ftbl :
  feat_partition T (dropna ftbl) = dropna (feat_partition T ftbl).
Proof.
  unfold feat_partition, dropna.
  rewrite !list_filter_filter. apply list_filter_iff. tauto.
Qed.

Lemma fin_column (grp : list (row float)) :
  Forall (fun r => is_fin (Adj_Close r) = true) grp ->
  map Adj_Close grp = map Fin (adj_values grp).
Proof.
  unfold adj_values. induction 1 as [|r grp Hr _ IH]; [done|].
  cbn [map]. destruct (Adj_Close r) as [q| |] eqn:E; try done.
  change (observations (Fin q :: map Adj_Close grp))
    with (q :: observations (map Adj_Close grp)).
  cbn [map]. by f_equal.
Qed.

Lemma adj_values_length (grp : list (row float)) :
  Forall (fun r => is_fin (Adj_Close r) = true) grp ->
  length (adj_values grp) = length grp.
Proof.
  intros Hfin. rewrite <- (length_map Fin), <- fin_column by done.
  by rewrite length_map.
Qed.

(** The row at place [i] of a ticker's part of the feature table. *)
Lemma feat_partition_lookup T (tbl : list (row float)) i fr :
  feat_partition T (engineer tbl) !! i = Some fr ->
  exists r, partition T tbl !! i = Some r /\
            fr = group_features (partition T tbl) i r.
Proof.
  rewrite engineer_partition_imap, list_lookup_imap.
  destruct (partition T tbl !! i) as [r|]; intros; simplify_eq/=.
  by exists r.
Qed.

(** The windows of a column are runs of consecutive entries. *)
Lemma take_drop_seq {A} (l : list A) d m n :
  m + n <= length l ->
  take n (drop m l) = map (fun j => nth j l d) (seq m n).
Proof.
  intros Hlen. apply list_eq. intros i.
  change (map ?f ?x) with (fmap (M:=list) f x).
  rewrite list_lookup_fmap.
  destruct (decide (i < n)) as [Hi|Hi].
  - rewrite lookup_take_lt, lookup_drop, lookup_seq_lt by done. simpl.
    rewrite nth_lookup.
    destruct (l !! (m + i)) eqn:E; [done|].
    apply lookup_ge_None in E. lia.
  - rewrite lookup_take_ge, lookup_seq_ge by lia. done.
Qed.

(** The derived columns of a partition of finite adjusted closes, in the
    terms of the specification. *)
Lemma group_features_spec (grp : list (row float)) i r :
  Forall (fun r => is_fin (Adj_Close r) = true) grp ->
  i < length grp ->
  MA7 (group_features grp i r)
  = FeatureSpec.moving_average 7 i (adj_values grp) /\
  MA14 (group_features grp i r)
  = FeatureSpec.moving_average 14 i (adj_values grp) /\
  Daily_Return (group_features grp i r)
  = FeatureSpec.daily_return i (adj_values grp) /\
  Lag_1 (group_features grp i r) = FeatureSpec.lag 1 i (adj_values grp) /\
  Lag_2 (group_features grp i r) = FeatureSpec.lag 2 i (adj_values grp).
Proof.
  intros Hfin Hi.
  pose proof (adj_values_length grp Hfin) as Hlen.
  set (adj := adj_values grp) in *.
  assert (Hlag : forall k, nth i (shift k (map Fin adj)) NaN
                           = FeatureSpec.lag k i adj).
  { intros k. rewrite nth_shift by (rewrite length_map; lia).
    unfold FeatureSpec.lag.
    destruct (decide (i < k)); [by rewrite decide_False by lia|].
    rewrite decide_True by lia.
    rewrite nth_lookup. change (map Fin adj) with (Fin <$> adj).
    rewrite list_lookup_fmap, nth_lookup.
    destruct (adj !! (i - k)) eqn:E; [done|].
    apply lookup_ge_None in E. lia. }
  unfold Preprocess.group_features. simpl.
  rewrite (fin_column grp Hfin). fold adj.
  rewrite !nth_rolling_fin, nth_pct_change_fin, !Hlag by lia.
  done.
Qed.

(** *** Returns and volatility of a partition

    For these the adjusted closes need not be finite: after the cleaning
    cell they are not [NaN], and that is all that is used. *)


Lemma pct_change_first xs : nth 0 (pct_change xs) NaN = NaN.
Proof.
  unfold pct_change, ffill, shift.
  destruct xs as [|x xs]; [done|]. simpl.
  by destruct (if isna x then NaN else x).
Qed.

(** A row has a volatility only from place 7 on, and only when the seven
    returns that end at it are finite. *)
Lemma group_volatility_defined (grp : list (row float)) i r :
  isna (Volatility (group_features grp i r)) = false ->
  7 <= i /\ i < length grp /\
  forall j, i - 6 <= j <= i ->
    is_fin (nth j (pct_change (map Adj_Close grp)) NaN) = true.
Proof.
  unfold Preprocess.group_features. simpl. intros Hna.
  apply nth_rolling_std_defined in Hna as (Hi & Hw & Hall).
  assert (H7 : 7 <= i).
  { destruct (decide (7 <= i)); [done|].
    pose proof (window_entry 7 i 0 _ Hi Hw Hall ltac:(lia)) as H0.
    by rewrite pct_change_first in H0. }
  rewrite pct_change_length, length_map in Hi.
  split; [done|]. split; [done|]. intros j Hj.
  apply (window_entry 7 i j);
    [by rewrite pct_change_length, length_map|done|done|lia].
Qed.


(** With seven finite returns in the window and no return so far beyond
    the moderate ones, the row has a volatility, and it is a number. *)
Lemma group_volatility_fin (grp : list (row float)) i r :
  7 <= i -> i < length grp ->
  (forall j, i - 6 <= j <= i ->
     is_fin (nth j (pct_change (map Adj_Close grp)) NaN) = true) ->
  (forall j q, j <= i ->
     nth j (pct_change (map Adj_Close grp)) NaN = Fin q ->
     moderate q = true) ->
  exists q, Volatility (group_features grp i r) = Fin q.
Proof.
  intros H7 Hi Hwin Hmod. unfold Preprocess.group_features. simpl.
  set (ret := pct_change (map Adj_Close grp)) in *.
  assert (Hlen : length ret = length grp).
  { unfold ret. by rewrite pct_change_length, length_map. }
  eexists. apply nth_rolling_std_fin; [lia..| |].
  - rewrite window_slice by lia. apply forallb_forall. intros x Hx.
    apply list_elem_of_In, list_elem_of_lookup in Hx as [k Hk].
    apply lookup_take_Some in Hk as [Hk Hk7].
    rewrite lookup_drop in Hk.
    pose proof (Hwin (S i - 7 + k) ltac:(lia)) as Hq.
    by rewrite nth_lookup, Hk in Hq.
  - apply forallb_forall. intros q Hq.
    apply list_elem_of_In in Hq. unfold observations in Hq.
    apply list_elem_of_omap in Hq as (x & Hx & Hxq).
    destruct x as [q'| |]; simplify_eq/=.
    apply list_elem_of_lookup in Hx as [k Hk].
    apply lookup_take_Some in Hk as [Hk Hki].
    apply (Hmod k q); [lia|]. by rewrite nth_lookup, Hk.
Qed.


(** A row has a 7-day average only from place 6 on, and only when the
    seven closes that end at it are finite. *)
Lemma group_ma7_defined (grp : list (row float)) i r :
  isna (MA7 (group_features grp i r)) = false ->
  6 <= i /\ i < length grp /\
  forall j, i - 6 <= j <= i -> is_fin (nth j (map Adj_Close grp) NaN) = true.
Proof.
  unfold Preprocess.group_features. simpl. intros Hna.
  destruct (decide (i < length grp)) as [Hi|Hi];
    [|rewrite nth_rolling_ge in Hna by (rewrite length_map; lia); done].
  rewrite nth_rolling in Hna by (by rewrite length_map).
  destruct (decide _) as [Hw|]; [|done].
  apply window_full in Hw as [Hw Hall]; [|by rewrite length_map].
  split; [lia|]. split; [done|]. intros j Hj.
  apply (window_entry 7 i j); [by rewrite length_map|lia|done|lia].
Qed.

(** The first thirteen rows of a partition have no 14-day average,
    whatever their closes. *)
Lemma group_ma14_warm_up (grp : list (row float)) i r :
  i < 13 -> MA14 (group_features grp i r) = NaN.
Proof.
  intros H13. unfold Preprocess.group_features. simpl.
  destruct (decide (i < length grp)) as [Hi|Hi];
    [|by rewrite nth_rolling_ge by (rewrite length_map; lia)].
  rewrite nth_rolling by (by rewrite length_map).
  destruct (decide _) as [Hw|]; [|done].
  apply window_full in Hw as [Hw _]; [lia|by rewrite length_map].
Qed.

Lemma group_lag (grp : list (row float)) i k :
  i < length grp ->
  nth i (shift k (map Adj_Close grp)) NaN
  = if decide (i < k) then NaN else nth (i - k) (map Adj_Close grp) NaN.
Proof. intros Hi. apply nth_shift. by rewrite length_map. Qed.

Lemma nth_adj_close (grp : list (row float)) i r :
  grp !! i = Some r -> nth i (map Adj_Close grp) NaN = Adj_Close r.
Proof.
  intros Hr. rewrite nth_lookup. change (map ?f ?l) with (f <$> l).
  by rewrite list_lookup_fmap, Hr.
Qed.

(** One row down in a partition the lags move on by one. *)
Lemma group_lag_step (grp : list (row float)) i r r' :
  grp !! i = Some r -> grp !! S i = Some r' ->
  Lag_1 (group_features grp (S i) r') = Adj_Close r /\
  Lag_2 (group_features grp (S i) r') = Lag_1 (group_features grp i r).
Proof.
  intros Hr Hr'. pose proof (lookup_lt_Some _ _ _ Hr') as Hi.
  unfold Preprocess.group_features. simpl.
  rewrite !group_lag by lia.
  rewrite decide_False by lia. replace (S i - 1) with i by lia.
  split; [by apply nth_adj_close|].
  destruct (decide (S i < 2)), (decide (i < 1)); try lia; [done|].
  by replace (S i - 2) with (i - 1) by lia.
Qed.

Lemma engine_lag_step T (tbl : list (row float)) i fr fr' :
  feat_partition T (engineer tbl) !! i = Some fr ->
  feat_partition T (engineer tbl) !! S i = Some fr' ->
  Lag_1 fr' = Adj_Close (base fr) /\ Lag_2 fr' = Lag_1 fr.
Proof.
  intros Hfr Hfr'.
  apply feat_partition_lookup in Hfr as (r & Hr & ->).
  apply feat_partition_lookup in Hfr' as (r' & Hr' & ->).
  by apply group_lag_step.
Qed.

(** *** What [dropna] keeps *)

Lemma filter_from {A} (P : A -> Prop) `{!forall x, Decision (P x)}
    (l : list A) n :
  (forall i x, l !! i = Some x -> (P x <-> n <= i)) ->
  filter P l = drop n l.
Proof.
  intros HP. rewrite <- (take_drop n l) at 1. rewrite filter_app.
  assert (H1 : filter P (take n l) = []).
  { apply filter_none, Forall_forall. intros x Hx.
    apply list_elem_of_lookup in Hx as [i Hi].
    apply lookup_take_Some in Hi as [Hi Hlt].
    rewrite (HP i x Hi). lia. }
  rewrite H1. simpl. apply filter_all, Forall_forall. intros x Hx.
  apply list_elem_of_lookup in Hx as [i Hi].
  rewrite lookup_drop in Hi. apply (HP _ _ Hi). lia.
Qed.

Lemma price_like_bounds q :
  price_like q = true ->
  (1 / inject_Z (2 ^ 100) <= Qabs q)%Q /\ (Qabs q <= inject_Z (2 ^ 100))%Q.
Proof.
  unfold price_like. intros H. apply andb_prop in H as [H1 H2].
  by apply Qle_bool_iff in H1, H2.
Qed.

(** The quotient of two numbers of the size of a price is in range, and
    the return that it gives is moderate. *)
Lemma price_ratio x y :
  price_like x = true -> price_like y = true ->
  Qeq_bool y 0 = false /\ overflows (x / y) = false /\
  moderate (x / y - 1) = true.
Proof.
  intros Hx Hy.
  apply price_like_bounds in Hx as [_ Hx], Hy as [Hy _].
  set (B := inject_Z (2 ^ 100)) in *.
  assert (HB : (0 < B)%Q) by reflexivity.
  assert (Hypos : (0 < Qabs y)%Q).
  { eapply Qlt_le_trans; [|exact Hy]. reflexivity. }
  assert (Hy0 : ~ (y == 0)%Q).
  { intros E. rewrite E in Hypos. by apply Qlt_irrefl in Hypos. }
  assert (Hr : (Qabs (x / y) <= B * B)%Q).
  { unfold Qdiv. rewrite Qabs_Qmult, Qabs_Qinv.
    apply Qle_shift_div_r; [done|].
    apply Qle_trans with (B * B * (1 / B))%Q.
    - apply Qle_trans with B; [exact Hx|]. by vm_compute.
    - apply Qmult_le_l; [reflexivity|]. exact Hy. }
  split; [|split].
  - destruct (Qeq_bool y 0) eqn:E; [|done]. by apply Qeq_bool_iff in E.
  - unfold overflows. destruct (Qle_bool _ _) eqn:E; [|done].
    apply Qle_bool_iff in E.
    assert (Hc : (overflow_threshold <= B * B)%Q)
      by (by apply Qle_trans with (2 := Hr)).
    vm_compute in Hc. by destruct Hc.
  - unfold moderate. apply Qle_bool_iff.
    apply Qle_trans with (Qabs (x / y) + Qabs (- (1)))%Q.
    + unfold Qminus. apply Qabs_triangle.
    + apply Qle_trans with (B * B + 1)%Q; [|by vm_compute].
      apply Qplus_le_compat; [exact Hr|by vm_compute].
Qed.

Lemma daily_return_price_like (adj : list Q) j :
  Forall (fun q => price_like q = true) adj ->
  1 <= j < length adj ->
  exists q, FeatureSpec.daily_return j adj = Fin q /\ moderate q = true.
Proof.
  intros Hp [H1 Hj]. destruct j as [|j]; [lia|].
  unfold FeatureSpec.daily_return, fdiv, of_exact.
  assert (Hat : forall k, k < length adj -> price_like (nth k adj 0%Q) = true).
  { intros k Hk. rewrite nth_lookup. destruct (adj !! k) as [q|] eqn:E.
    - simpl. eapply Forall_lookup_1 in Hp; eauto.
    - apply lookup_ge_None in E. lia. }
  destruct (price_ratio _ _ (Hat (S j) Hj) (Hat j ltac:(lia)))
    as (Hz & Hov & Hm).
  rewrite Hz, Hov. simpl. by eexists.
Qed.

(** What a partition of usable rows is made of. *)
Lemma usable_columns (grp : list (row float)) :
  Forall (fun r => usable r = true) grp ->
  Forall (fun r => raw_complete r = true) grp /\
  Forall (fun r => is_fin (Adj_Close r) = true) grp /\
  Forall (fun q => price_like q = true) (adj_values grp).
Proof.
  unfold adj_values.
  induction 1 as [|r grp Hr _ (IH1 & IH2 & IH3)]; [done|].
  unfold usable in Hr. apply andb_prop in Hr as [Hc Hq].
  destruct (Adj_Close r) as [q| |] eqn:E; try done.
  cbn [map]. rewrite E.
  change (observations (Fin q :: ?l)) with (q :: observations l).
  repeat split; constructor; try done. by rewrite E.
Qed.

(** From place 13 on, a row of a partition of usable rows holds a number
    in every derived column. *)
Lemma usable_row_finite (grp : list (row float)) i r :
  Forall (fun r => usable r = true) grp ->
  i < length grp -> 13 <= i ->
  is_fin (MA7 (group_features grp i r)) = true /\
  is_fin (MA14 (group_features grp i r)) = true /\
  is_fin (Daily_Return (group_features grp i r)) = true /\
  is_fin (Volatility (group_features grp i r)) = true /\
  is_fin (Lag_1 (group_features grp i r)) = true /\
  is_fin (Lag_2 (group_features grp i r)) = true.
Proof.
  intros Hus Hi H13.
  destruct (usable_columns grp Hus) as (_ & Hfin & Hp).
  destruct (group_features_spec grp i r Hfin Hi)
    as (H7 & H14 & Hd & H1 & H2).
  pose proof (adj_values_length grp Hfin) as Hlen.
  rewrite H7, H14, Hd, H1, H2.
  unfold FeatureSpec.moving_average, FeatureSpec.lag.
  rewrite !decide_True by lia.
  destruct (daily_return_price_like _ i Hp ltac:(lia)) as (q & -> & _).
  assert (Hret : forall j, 1 <= j <= i ->
            exists q, nth j (pct_change (map Adj_Close grp)) NaN = Fin q /\
                      moderate q = true).
  { intros j Hj. rewrite (fin_column grp Hfin).
    rewrite nth_pct_change_fin by (fold (adj_values grp); lia).
    apply (daily_return_price_like _ j Hp). lia. }
  destruct (group_volatility_fin grp i r ltac:(lia) Hi) as (v & ->);
    [| |done].
  - intros j Hj. by destruct (Hret j ltac:(lia)) as (q' & -> & _).
  - intros [|j] q' Hj Hq'.
    + by rewrite pct_change_first in Hq'.
    + destruct (Hret (S j) ltac:(lia)) as (q'' & Hq'' & Hm). congruence.
Qed.

(** With usable rows the row at place [i] of a partition has all its
    derived columns exactly from place 13 on. *)
Lemma derived_defined_from_13 (grp : list (row float)) i r :
  Forall (fun r => usable r = true) grp ->
  i < length grp ->
  derived_defined (group_features grp i r) = true <-> 13 <= i.
Proof.
  intros Hus Hi. unfold derived_defined.
  destruct (decide (13 <= i)) as [H13|H13].
  - destruct (usable_row_finite grp i r Hus Hi H13)
      as (H7 & H14 & Hd & Hv & H1 & H2).
    split; [done|]. intros _.
    destruct (MA7 _), (MA14 _), (Daily_Return _), (Volatility _),
      (Lag_1 _), (Lag_2 _); done.
  - destruct (usable_columns grp Hus) as (_ & Hfin & _).
    destruct (group_features_spec grp i r Hfin Hi) as (_ & H14 & _).
    rewrite H14. unfold FeatureSpec.moving_average.
    rewrite (decide_False (P := 14 <= S i)) by lia. simpl.
    rewrite andb_false_r. simpl. split; [done|lia].
Qed.

(** The emitted rows of a ticker are among the feature records of its
    partition from place 13 on, in their order. *)
Lemma dropna_warm_up T (tbl : list (row float)) :
  feat_partition T (dropna (engineer tbl))
    `sublist_of`
    drop 13 (imap (group_features (partition T tbl)) (partition T tbl)).
Proof.
  rewrite feat_partition_dropna, engineer_partition_imap.
  set (grp := partition T tbl).
  set (l := imap (group_features grp) grp).
  unfold dropna. rewrite <- (take_drop 13 l) at 1. rewrite filter_app.
  rewrite (filter_none _ (take 13 l)); [simpl; apply sublist_filter|].
  apply Forall_forall. intros fr Hfr.
  apply list_elem_of_lookup in Hfr as [i Hi].
  apply lookup_take_Some in Hi as [Hi Hlt].
  unfold l in Hi. rewrite list_lookup_imap in Hi.
  destruct (grp !! i) as [r|] eqn:Hr; [|done].
  simpl in Hi. injection Hi as <-.
  unfold no_null, derived_defined.
  rewrite (group_ma14_warm_up grp i r Hlt). simpl.
  by rewrite !andb_false_r.
Qed.

(** The emitted rows of a ticker whose cleaned rows are all usable: the
    feature records of its partition from place 13 on. *)
Lemma dropna_usable T (tbl : list (row float)) :
  Forall (fun r => usable r = true) (partition T tbl) ->
  feat_partition T (dropna (engineer tbl))
  = drop 13 (imap (group_features (partition T tbl)) (partition T tbl)).
Proof.
  intros Hus. destruct (usable_columns _ Hus) as (Hraw & Hfin & _).
  rewrite feat_partition_dropna, engineer_partition_imap.
  unfold dropna. apply filter_from. intros i fr Hi.
  rewrite list_lookup_imap in Hi.
  destruct (partition T tbl !! i) as [r|] eqn:Hr; simplify_eq/=.
  pose proof (lookup_lt_Some _ _ _ Hr) as Hlt.
  rewrite <- (derived_defined_from_13 _ i r Hus Hlt).
  unfold no_null. cbn [base Preprocess.group_features].
  eapply Forall_lookup_1 in Hraw; eauto.
  eapply Forall_lookup_1 in Hfin; eauto. simpl in Hraw, Hfin.
  rewrite Hraw. destruct (Adj_Close r); try done.
Qed.

Lemma base_drop_imap (grp : list (row float)) n :
  map base (drop n (imap (group_features grp) grp)) = drop n grp.
Proof.
  change (map base ?l) with (base <$> l).
  rewrite fmap_drop. f_equal.
  rewrite fmap_imap. apply list_eq. intros i.
  rewrite list_lookup_imap. by destruct (grp !! i).
Qed.

End Features.

(** *** The notebook on a table of [sqlval] cells *)

Section Engine.
Variable parse_float : string -> option Q.
Variable rstd : running_std.

#[local] Abbreviation to_numeric := (to_numeric parse_float).
#[local] Abbreviation coerce := (coerce parse_float).
#[local] Abbreviation clean := (clean parse_float).
#[local] Abbreviation engineer := (engineer rstd).
#[local] Abbreviation group_features := (group_features rstd).
#[local] Abbreviation process := (process parse_float rstd).

Lemma to_numeric_not_inf v : to_numeric v <> Inf.
Proof.
  destruct v as [|q|s]; simpl; try done.
  by destruct (parse_float s).
Qed.

Lemma clean_fin tbl :
  Forall (fun r => is_fin (Adj_Close r) = true) (clean tbl).
Proof.
  unfold Preprocess.clean, dropna_adj_close, Preprocess.coerce.
  apply Forall_forall. intros r Hr.
  apply list_elem_of_filter in Hr as [Hna Hr].
  apply list_elem_of_fmap in Hr as (r0 & -> & _).
  simpl in *. pose proof (to_numeric_not_inf (Adj_Close r0)).
  by destruct (to_numeric (Adj_Close r0)).
Qed.

Lemma partition_clean T tbl :
  partition T (clean tbl) = clean (partition T tbl).
Proof.
  unfold partition, Preprocess.clean, dropna_adj_close, Preprocess.coerce.
  induction tbl as [|r tbl IH]; [done|].
  simpl. rewrite !filter_cons. simpl.
  destruct (decide (isna (to_numeric (Adj_Close r)) = false));
    destruct (decide (Ticker r = Some T)); simpl;
    rewrite ?filter_cons; simpl;
    rewrite ?decide_True, ?decide_False by done;
    by rewrite ?IH.
Qed.

Lemma partition_clean_fin T tbl :
  Forall (fun r => is_fin (Adj_Close r) = true) (partition T (clean tbl)).
Proof.
  apply Forall_forall. intros r Hr.
  apply list_elem_of_filter in Hr as [_ Hr].
  revert r Hr. apply Forall_forall, clean_fin.
Qed.

Lemma coerce_usable (grp : list (row sqlval)) :
  Forall (fun r => usable r = true) (coerce grp) ->
  clean grp = coerce grp.
Proof.
  unfold Preprocess.clean, dropna_adj_close. intros Hus.
  apply filter_all. eapply Forall_impl; [exact Hus|].
  intros r Hr. simpl. unfold usable in Hr.
  apply andb_prop in Hr as [_ Hr]. by destruct (Adj_Close r).
Qed.

Lemma partition_coerce T (tbl : list (row sqlval)) :
  partition T (coerce tbl) = coerce (partition T tbl).
Proof.
  unfold partition, Preprocess.coerce.
  induction tbl as [|r tbl IH]; [done|].
  cbn [map]. rewrite !filter_cons. cbn [Ticker set_adj_close].
  destruct (decide (Ticker r = Some T)); cbn [map]; by rewrite IH.
Qed.

(** The emitted rows of a ticker whose raw rows are all usable. *)
Lemma process_partition_usable T (tbl : list (row sqlval)) :
  Forall (fun r => usable r = true) (coerce (partition T tbl)) ->
  feat_partition T (process tbl)
  = drop 13 (imap (group_features (coerce (partition T tbl)))
                  (coerce (partition T tbl))).
Proof.
  intros Hus. unfold Preprocess.process.
  rewrite dropna_usable; rewrite partition_clean, (coerce_usable _ Hus);
    done.
Qed.

(** *** The claims about the feature engine *)

(** C4: every derived field of a row is computed from the rows of the same
    ticker only.  Two raw tables that agree on the rows of ticker [T] give
    the rows of [T] identical feature records, both in the feature table
    and in the processed table: no other ticker's row has any influence. *)
Theorem no_cross_ticker_leakage T (tbl1 tbl2 : list (row sqlval)) :
  partition T tbl1 = partition T tbl2 ->
  feat_partition T (engineer (clean tbl1))
  = feat_partition T (engineer (clean tbl2)) /\
  feat_partition T (process tbl1) = feat_partition T (process tbl2).
Proof.
  intros Heq.
  assert (H : feat_partition T (engineer (clean tbl1))
              = feat_partition T (engineer (clean tbl2))).
  { by rewrite !engineer_partition, !partition_clean, Heq. }
  split; [exact H|].
  unfold Preprocess.process. by rewrite !feat_partition_dropna, H.
Qed.


(** C7: the feature engine is deterministic and its write replaces the
    processed table.  Whatever [processed_stocks] held before (nothing, or
    any rows), a run succeeds, leaves the raw table as it was and leaves in
    [processed_stocks] the features recomputed from the whole raw table:
    nothing of the old contents is kept or merged.  Two runs on the same
    raw data therefore write identical tables, and a second run on the
    result of the first changes nothing. *)
Theorem run_full_replace (raw : list (row sqlval))
    (old1 old2 : option (list feat_row)) :
  Preprocess.run parse_float rstd (mkDb raw old1)
  = Some (mkDb raw (Some (process raw))) /\
  Preprocess.run parse_float rstd (mkDb raw old1)
  = Preprocess.run parse_float rstd (mkDb raw old2) /\
  Preprocess.run parse_float rstd (mkDb raw (Some (process raw)))
  = Some (mkDb raw (Some (process raw))).
Proof.
  unfold Preprocess.run, Sql.to_sql. simpl.
  by destruct old1, old2.
Qed.

Lemma process_single_ticker T (rows : list (row sqlval)) :
  Forall (fun r => Ticker r = Some T) rows ->
  feat_partition T (process rows) = process rows.
Proof.
  intros Hall. apply filter_all, Forall_forall. intros fr Hfr.
  unfold Preprocess.process, dropna in Hfr.
  apply list_elem_of_filter in Hfr as [_ Hfr].
  assert (Hb : base fr ∈ clean rows).
  { rewrite <- (engineer_base rstd (clean rows)).
    change (map base ?l) with (base <$> l).
    by apply list_elem_of_fmap_2. }
  apply list_elem_of_filter in Hb as [_ Hb].
  apply list_elem_of_fmap in Hb as (r0 & -> & Hr0).
  simpl. revert r0 Hr0. by apply Forall_forall.
Qed.

(** C2: for the raw rows of a single ticker, fifteen days with adjusted
    closes 10, 11, ..., 24 and no raw column missing, the processed output
    holds no row before 0-based index 13: it is the rows 13 and 14, and its
    first row is row 13. *)
Theorem warm_up_cutoff_15 T (rows : list (row sqlval)) :
  Forall (fun r => Ticker r = Some T) rows ->
  Forall (fun r => raw_complete r = true) rows ->
  map (fun r => to_numeric (Adj_Close r)) rows
  = map (fun z => Fin (inject_Z z))
        [10; 11; 12; 13; 14; 15; 16; 17; 18; 19; 20; 21; 22; 23; 24]%Z ->
  map base (process rows) = drop 13 (coerce rows) /\
  length (process rows) = 2 /\
  head (map base (process rows)) = coerce rows !! 13.
Proof.
  intros Hall Hraw Hadj.
  assert (Hlen : length rows = 15).
  { apply (f_equal length) in Hadj. by rewrite !length_map in Hadj. }
  assert (Hus : Forall (fun r => usable r = true) (coerce rows)).
  { unfold Preprocess.coerce. apply Forall_fmap, Forall_forall. intros r Hr.
    unfold usable. simpl.
    change (raw_complete (set_adj_close to_numeric r)) with (raw_complete r).
    rewrite (proj1 (Forall_forall _ _) Hraw r Hr). simpl.
    assert (Hin : to_numeric (Adj_Close r)
                  ∈ map (fun r => to_numeric (Adj_Close r)) rows).
    { change (map ?f ?l) with (f <$> l).
      by apply (list_elem_of_fmap_2 (fun r => to_numeric (Adj_Close r))). }
    rewrite Hadj in Hin. cbn [map] in Hin.
    repeat (apply elem_of_cons in Hin as [->|Hin]; [done|]).
    by apply elem_of_nil in Hin. }
  assert (Hb : map base (process rows) = drop 13 (coerce rows)).
  { rewrite <- (process_single_ticker T rows Hall).
    rewrite <- (partition_all T rows Hall) at 2.
    rewrite process_partition_usable, base_drop_imap;
      by rewrite (partition_all T rows Hall). }
  split; [exact Hb|]. split.
  - rewrite <- (length_map base), Hb, length_drop.
    unfold Preprocess.coerce. rewrite length_map. lia.
  - rewrite Hb. unfold Preprocess.coerce.
    do 14 (destruct rows as [|? rows]; [done|]). done.
Qed.

(** *** Stored order and date order *)

Lemma date_le_trans {A} (r1 r2 r3 : row A) :
  date_le r1 r2 = true -> date_le r2 r3 = true -> date_le r1 r3 = true.
Proof.
  unfold date_le.
  destruct (Date r1), (Date r2), (Date r3); try done.
  rewrite !Z.leb_le. lia.
Qed.

Lemma date_le_total {A} (r1 r2 : row A) :
  date_le r1 r2 = false -> date_le r2 r1 = true.
Proof.
  unfold date_le. destruct (Date r1), (Date r2); try done.
  rewrite Z.leb_gt, Z.leb_le. lia.
Qed.

Lemma insert_by_date_le_all {A} (r : row A) l :
  forallb (date_le r) l = true -> insert_by_date r l = r :: l.
Proof.
  destruct l as [|r' l]; [done|]. simpl.
  intros H. apply andb_prop in H as [-> _]. done.
Qed.

Lemma forallb_insert_by_date {A} (P : row A -> bool) r l :
  forallb P (insert_by_date r l) = P r && forallb P l.
Proof.
  induction l as [|r' l IH]; simpl; [done|].
  destruct (date_le r r'); simpl; [done|].
  rewrite IH. by destruct (P r), (P r').
Qed.

Lemma forallb_date_le_trans {A} (r r' : row A) l :
  date_le r r' = true -> forallb (date_le r') l = true ->
  forallb (date_le r) l = true.
Proof.
  intros Hr. rewrite !forallb_forall. intros H x Hx.
  eapply date_le_trans; eauto.
Qed.

Lemma ascending_insert {A} (r : row A) l :
  ascending l = true -> ascending (insert_by_date r l) = true.
Proof.
  induction l as [|r' l IH]; [done|].
  cbn [ascending insert_by_date]. intros H.
  apply andb_prop in H as [Hall Hasc].
  destruct (date_le r r') eqn:E; cbn [ascending forallb].
  - rewrite E, Hall, Hasc. simpl.
    by rewrite (forallb_date_le_trans r r' l).
  - rewrite forallb_insert_by_date, (date_le_total _ _ E), Hall. simpl.
    by apply IH.
Qed.

Lemma ascending_sort {A} (l : list (row A)) :
  ascending (sort_by_date l) = true.
Proof.
  induction l as [|r l IH]; [done|]. simpl. by apply ascending_insert.
Qed.

Lemma sort_ascending {A} (l : list (row A)) :
  ascending l = true -> sort_by_date l = l.
Proof.
  induction l as [|r l IH]; [done|]. cbn [ascending]. intros H.
  apply andb_prop in H as [Hall Hasc].
  unfold sort_by_date in *. cbn [foldr]. rewrite (IH Hasc).
  by apply insert_by_date_le_all.
Qed.

Lemma forallb_filter {A} (P : A -> bool) (R : A -> Prop)
    `{!forall x, Decision (R x)} l :
  forallb P l = true -> forallb P (filter R l) = true.
Proof.
  rewrite !forallb_forall. intros HP x Hx. apply HP.
  apply list_elem_of_In in Hx. apply list_elem_of_filter in Hx as [_ Hx].
  by apply list_elem_of_In.
Qed.

Lemma filter_insert_by_date {A} (R : row A -> Prop)
    `{!forall x, Decision (R x)} r l :
  ascending l = true ->
  filter R (insert_by_date r l)
  = if decide (R r) then insert_by_date r (filter R l) else filter R l.
Proof.
  induction l as [|r' l IH]; intros Hasc.
  - simpl. rewrite filter_cons, filter_nil. by destruct (decide (R r)).
  - cbn [ascending] in Hasc. apply andb_prop in Hasc as [Hall Hasc].
    specialize (IH Hasc). cbn [insert_by_date].
    destruct (date_le r r') eqn:E.
    + rewrite (filter_cons _ r). destruct (decide (R r)); [|done].
      symmetry. apply insert_by_date_le_all, forallb_filter.
      simpl. rewrite E. simpl. by apply (forallb_date_le_trans r r').
    + rewrite !(filter_cons _ r'), IH.
      destruct (decide (R r')), (decide (R r)); try done.
      cbn [insert_by_date]. by rewrite E.
Qed.

Lemma partition_sort {A} T (tbl : list (row A)) :
  partition T (sort_by_date tbl) = sort_by_date (partition T tbl).
Proof.
  unfold partition. induction tbl as [|r tbl IH]; [done|].
  cbn [sort_by_date foldr]. fold (sort_by_date tbl).
  rewrite filter_insert_by_date by apply ascending_sort.
  rewrite filter_cons, IH. by destruct (decide (Ticker r = Some T)).
Qed.

Lemma engineer_ignores_dates (tbl : list (row float))
    (dates : nat -> option Z) :
  map derived (engineer (imap (fun i r => set_date (dates i) r) tbl))
  = map derived (engineer tbl).
Proof.
  set (tbl' := imap (fun i r => set_date (dates i) r) tbl).
  assert (HT : map Ticker tbl' = map Ticker tbl).
  { apply list_eq. intros i. unfold tbl'.
    change (map ?f ?l) with (f <$> l).
    rewrite !list_lookup_fmap, list_lookup_imap. by destruct (tbl !! i). }
  assert (HA : map Adj_Close tbl' = map Adj_Close tbl).
  { apply list_eq. intros i. unfold tbl'.
    change (map ?f ?l) with (f <$> l).
    rewrite !list_lookup_fmap, list_lookup_imap. by destruct (tbl !! i). }
  unfold Preprocess.engineer, by_ticker. rewrite HT, HA.
  apply list_eq. intros i.
  change (map derived ?l) with (derived <$> l).
  rewrite !list_lookup_fmap, !list_lookup_imap. unfold tbl'.
  rewrite list_lookup_imap. by destruct (tbl !! i).
Qed.

Lemma engineer_by_date_ascending T (tbl : list (row float)) :
  ascending (partition T tbl) = true ->
  feat_partition T (engineer tbl)
  = feat_partition T (FeatureSpec.engineer_by_date rstd tbl).
Proof.
  intros Hasc. unfold FeatureSpec.engineer_by_date.
  rewrite !engineer_partition, partition_sort.
  by rewrite (sort_ascending _ Hasc).
Qed.

(** C10: the feature engine never sorts by date.  The derived columns do
    not depend on the [Date] column at all: they are computed over each
    ticker's rows in stored order.  They agree with the date-based
    definitions (the engine run on the rows in ascending date order) when
    the ticker's rows are stored in ascending date order, and on a table
    stored latest-first the same row gets different derived columns. *)
Theorem derived_fields_follow_stored_order :
  (forall (tbl : list (row float)) (dates : nat -> option Z),
     map derived (engineer (imap (fun i r => set_date (dates i) r) tbl))
     = map derived (engineer tbl)) /\
  (forall (tbl : list (row float)) T,
     ascending (partition T tbl) = true ->
     feat_partition T (engineer tbl)
     = feat_partition T (FeatureSpec.engineer_by_date rstd tbl)) /\
  (exists (tbl : list (row float)) T fr fr',
     ascending (partition T tbl) = false /\
     fr ∈ feat_partition T (engineer tbl) /\
     fr' ∈ feat_partition T (FeatureSpec.engineer_by_date rstd tbl) /\
     base fr = base fr' /\
     Lag_1 fr = Fin 11 /\ Lag_1 fr' = NaN).
Proof.
  split; [exact engineer_ignores_dates|].
  split; [exact (fun tbl T => engineer_by_date_ascending T tbl)|].
  exists Examples.xom_latest_first, "XOM"%string.
  exists (mkFeat (Examples.xom_clean 1 10) NaN NaN
            (fsub_fin (fdiv (Fin 10) (Fin 11)) 1) NaN (Fin 11) NaN).
  exists (mkFeat (Examples.xom_clean 1 10) NaN NaN NaN NaN NaN NaN).
  split; [reflexivity|].
  split; [apply list_elem_of_lookup; by exists 1|].
  split; [apply list_elem_of_lookup; by exists 0|].
  done.
Qed.

End Engine.

(** *** The cleaning cell on any reading of the cells *)

Section Reading.
Context {A : Type} (read : A -> float).
Variable rstd : running_std.

Lemma read_defined (tbl : list (row A)) :
  Forall (fun r => isna (Adj_Close r) = false)
         (dropna_adj_close (map (set_adj_close read) tbl)).
Proof.
  apply Forall_forall. intros r Hr.
  by apply list_elem_of_filter in Hr as [Hr _].
Qed.

Lemma read_partition T (tbl : list (row A)) :
  partition T (dropna_adj_close (map (set_adj_close read) tbl))
  = dropna_adj_close (map (set_adj_close read) (partition T tbl)).
Proof.
  unfold partition, dropna_adj_close.
  induction tbl as [|r tbl IH]; [done|].
  simpl. rewrite !filter_cons. simpl.
  destruct (decide (isna (read (Adj_Close r)) = false));
    destruct (decide (Ticker r = Some T)); simpl;
    rewrite ?filter_cons; simpl;
    rewrite ?decide_True, ?decide_False by done;
    by rewrite ?IH.
Qed.

Lemma read_usable (grp : list (row A)) :
  Forall (fun r => usable r = true) (map (set_adj_close read) grp) ->
  dropna_adj_close (map (set_adj_close read) grp)
  = map (set_adj_close read) grp.
Proof.
  unfold dropna_adj_close. intros Hus.
  apply filter_all. eapply Forall_impl; [exact Hus|].
  intros r Hr. simpl. unfold usable in Hr.
  apply andb_prop in Hr as [_ Hr]. by destruct (Adj_Close r).
Qed.

(** The emitted rows of a ticker are among its cleaned rows from place 13
    on, in their order. *)
Lemma read_process_warm_up T (tbl : list (row A)) :
  map base
    (feat_partition T
       (dropna (engineer rstd
                  (dropna_adj_close (map (set_adj_close read) tbl)))))
    `sublist_of`
    drop 13 (dropna_adj_close (map (set_adj_close read) (partition T tbl))).
Proof.
  rewrite <- read_partition.
  rewrite <- (base_drop_imap rstd
                (partition T (dropna_adj_close
                                (map (set_adj_close read) tbl))) 13).
  change (map base ?l) with (base <$> l).
  apply fmap_sublist, dropna_warm_up.
Qed.

(** The emitted rows of a ticker whose raw rows all read as usable rows:
    its rows from place 13 on. *)
Lemma read_process_usable T (tbl : list (row A)) :
  Forall (fun r => usable r = true)
         (map (set_adj_close read) (partition T tbl)) ->
  map base
    (feat_partition T
       (dropna (engineer rstd
                  (dropna_adj_close (map (set_adj_close read) tbl)))))
  = drop 13 (map (set_adj_close read) (partition T tbl)).
Proof.
  intros Hus.
  rewrite dropna_usable; rewrite read_partition, (read_usable _ Hus);
    [|done].
  apply base_drop_imap.
Qed.

End Reading.

(** *** The claims about cleaning, warm-up and volatility, on any table *)

Section RawEngine.
Variable parse_number : string -> option float.
Variable rstd : running_std.

#[local] Abbreviation to_numeric := (RawTable.to_numeric parse_number).
#[local] Abbreviation is_numeric := (RawTable.is_numeric parse_number).
#[local] Abbreviation coerce := (RawTable.coerce parse_number).
#[local] Abbreviation clean := (RawTable.clean parse_number).
#[local] Abbreviation process := (RawTable.process parse_number rstd).
#[local] Abbreviation usable := (RawTable.usable parse_number).
#[local] Abbreviation engineer := (engineer rstd).

Lemma is_numeric_spec v :
  is_numeric v = true <-> isna (to_numeric v) = false.
Proof.
  destruct v as [|q| |s]; simpl; [done..|].
  by destruct (parse_number s) as [[q| |]|].
Qed.

(** C8: the cleaning step, which runs before any feature is computed, is a
    total function (nothing is raised).  It keeps exactly the rows whose
    adjusted close is a number, an infinite one included, or text that
    reads as one: in their order, with the number in the place of the cell
    and every other column as it was.  A cell that is null or text that is
    no number becomes null and its row is dropped, so that no adjusted
    close is null after the step. *)
Theorem clean_drops_non_numeric (tbl : list (row RawTable.cell)) :
  clean tbl = coerce (filter (fun r => is_numeric (Adj_Close r) = true) tbl)
  /\ Forall (fun r => is_numeric (Adj_Close r) = false ->
                      to_numeric (Adj_Close r) = NaN /\
                      set_adj_close to_numeric r ∉ clean tbl) tbl
  /\ Forall (fun r => is_numeric (Adj_Close r) = true ->
                      isna (to_numeric (Adj_Close r)) = false /\
                      set_adj_close to_numeric r ∈ clean tbl) tbl
  /\ Forall (fun r => isna (Adj_Close r) = false) (clean tbl).
Proof.
  split; [|split; [|split]].
  - unfold RawTable.clean, dropna_adj_close, RawTable.coerce.
    induction tbl as [|r tbl IH]; [done|].
    cbn [map]. rewrite !filter_cons. cbn [Adj_Close set_adj_close].
    destruct (decide (isna (to_numeric (Adj_Close r)) = false)) as [H|H].
    + rewrite decide_True by (by apply is_numeric_spec).
      cbn [map]. by rewrite IH.
    + rewrite decide_False by (by rewrite is_numeric_spec). exact IH.
  - apply Forall_forall. intros r _ Hr.
    assert (Hna : isna (to_numeric (Adj_Close r)) = true).
    { destruct (isna (to_numeric (Adj_Close r))) eqn:E; [done|].
      apply is_numeric_spec in E. congruence. }
    split.
    + by destruct (to_numeric (Adj_Close r)).
    + intros Hin. apply list_elem_of_filter in Hin as [Hin _].
      simpl in Hin. congruence.
  - apply Forall_forall. intros r Hr Hnum.
    apply is_numeric_spec in Hnum. split; [done|].
    apply list_elem_of_filter. split; [done|].
    unfold RawTable.coerce. change (map ?f ?l) with (f <$> l).
    by apply list_elem_of_fmap_2.
  - apply read_defined.
Qed.

(** C3, amended: a row of the cleaned table is excluded from the output
    exactly when at least one of its columns, raw or derived, is null.  For
    every ticker [T] the first 13 of its cleaned rows are among the
    excluded: the rows emitted for [T] are a sub-sequence, in stored order,
    of the cleaned rows after them.  When the raw rows of [T] all have
    every raw column present and an adjusted close that reads as a finite
    number of the size of a price (not zero, of magnitude between [2^-100]
    and [2^100]), nothing else is excluded: the rows emitted for [T] are
    [T]'s rows in stored order without the first 13, a suffix of them, and
    a strict one when [T] has rows. *)
Theorem processed_rows_are_suffix T (tbl : list (row RawTable.cell)) :
  (forall fr, fr ∈ engineer (clean tbl) ->
     (fr ∈ process tbl <-> no_null fr = true)) /\
  map base (feat_partition T (process tbl))
    `sublist_of` drop 13 (clean (partition T tbl)) /\
  (Forall (fun r => usable r = true) (partition T tbl) ->
   map base (feat_partition T (process tbl))
   = drop 13 (coerce (partition T tbl)) /\
   (partition T tbl <> [] ->
    exists dropped,
      dropped <> [] /\
      coerce (partition T tbl)
      = dropped ++ map base (feat_partition T (process tbl)))).
Proof.
  split; [|split].
  - intros fr Hfr. unfold RawTable.process, dropna.
    rewrite list_elem_of_filter. tauto.
  - apply read_process_warm_up.
  - intros Hus.
    assert (Hb : map base (feat_partition T (process tbl))
                 = drop 13 (coerce (partition T tbl))).
    { apply read_process_usable.
      apply Forall_fmap. exact Hus. }
    split; [exact Hb|].
    intros Hne. exists (take 13 (coerce (partition T tbl))). split.
    + unfold RawTable.coerce.
      destruct (partition T tbl); [done|]. discriminate.
    + by rewrite Hb, take_drop.
Qed.


(** On a table of [sqlval] cells the two models of the notebook agree. *)
Lemma to_numeric_of_sqlval (parse_float : string -> option Q) v :
  RawTable.to_numeric (RawTable.finite_parser parse_float)
    (RawTable.of_sqlval v)
  = Preprocess.to_numeric parse_float v.
Proof.
  destruct v as [|q|s]; simpl; [done..|].
  unfold RawTable.finite_parser. by destruct (parse_float s).
Qed.

Lemma process_of_sqlval (parse_float : string -> option Q)
    (tbl : list (row sqlval)) :
  RawTable.process (RawTable.finite_parser parse_float) rstd
    (map (set_adj_close RawTable.of_sqlval) tbl)
  = Preprocess.process parse_float rstd tbl.
Proof.
  unfold RawTable.process, Preprocess.process, RawTable.clean,
    Preprocess.clean, RawTable.coerce, Preprocess.coerce.
  do 3 f_equal. rewrite map_map. apply map_ext. intros r.
  unfold set_adj_close. simpl. by rewrite to_numeric_of_sqlval.
Qed.

End RawEngine.

(** *** The claims at concrete tables *)

Section Concrete.
Import Examples.

#[local] Abbreviation clean' := (Preprocess.clean parse_decimal).
#[local] Abbreviation coerce' := (Preprocess.coerce parse_decimal).
#[local] Abbreviation engineer' := (Preprocess.engineer exact_std).
#[local] Abbreviation process' := (Preprocess.process parse_decimal exact_std).

Lemma no_cross_ticker_leakage_witness :
  feat_partition "XOM" (process' (xom15 ++ [cvx 1 50; cvx 2 51]))
  = feat_partition "XOM" (process' (cvx 1 70 :: xom15)).
Proof.
  apply (no_cross_ticker_leakage parse_decimal exact_std "XOM"
           (xom15 ++ [cvx 1 50; cvx 2 51]) (cvx 1 70 :: xom15)).
  reflexivity.
Defined.



Lemma processed_rows_are_suffix_witness :
  map base
    (feat_partition "XOM"
       (RawTable.process parse_number exact_std
          (map any_cell (cvx 1 70 :: xom15))))
  = drop 13 (RawTable.coerce parse_number (map any_cell xom15)).
Proof.
  apply (processed_rows_are_suffix parse_number exact_std "XOM"
           (map any_cell (cvx 1 70 :: xom15))).
  repeat constructor.
Defined.

Lemma warm_up_cutoff_15_witness :
  map base (process' xom15) = drop 13 (coerce' xom15) /\
  length (process' xom15) = 2 /\
  head (map base (process' xom15)) = coerce' xom15 !! 13.
Proof.
  apply (warm_up_cutoff_15 parse_decimal exact_std "XOM" xom15).
  - repeat constructor.
  - repeat constructor.
  - reflexivity.
Defined.

Lemma clean_drops_non_numeric_witness :
  RawTable.clean parse_number
    [any_cell (xom 1 10);
     set_adj_close (fun _ => RawTable.Text "n/a") (xom 2 11);
     set_adj_close (fun _ => RawTable.Text "12") (xom 3 12);
     set_adj_close (fun _ => RawTable.Text "inf") (xom 4 13);
     set_adj_close (fun _ => RawTable.Null) (xom 5 14);
     set_adj_close (fun _ => RawTable.Infinity) (xom 6 15)]
  = [xom_clean 1 10; xom_clean 3 12;
     set_adj_close (fun _ => Inf) (xom 4 13);
     set_adj_close (fun _ => Inf) (xom 6 15)].
Proof.
  rewrite (proj1 (clean_drops_non_numeric parse_number _)).
  reflexivity.
Defined.

Lemma derived_fields_follow_stored_order_witness :
  feat_partition "XOM" (engineer' [xom_clean 1 10; xom_clean 2 11])
  = feat_partition "XOM"
      (FeatureSpec.engineer_by_date exact_std
         [xom_clean 1 10; xom_clean 2 11]).
Proof.
  apply (derived_fields_follow_stored_order exact_std).
  reflexivity.
Defined.

(** C3 as stated fails.  On sixteen days of one ticker of which day 15 has
    no volume, that row has every derived column and is excluded all the
    same, and the output (days 14 and 16) is not a suffix of the ticker's
    rows.  With every raw column present but a zero adjusted close on day
    15, day 16 loses its volatility and the output (days 14 and 15) is not
    a suffix either.  On fourteen days stored latest first the one emitted
    row is the earliest day, not the end of the chronological rows. *)
Lemma processed_rows_not_suffix_counterexample :
  (exists fr,
     fr ∈ engineer' (clean' xom16_volume_gap) /\
     derived_defined fr = true /\
     fr ∉ process' xom16_volume_gap) /\
  ~ (exists dropped,
       partition "XOM" (coerce' xom16_volume_gap)
       = dropped
         ++ map base (feat_partition "XOM" (process' xom16_volume_gap))) /\
  ~ (exists dropped,
       partition "XOM" (coerce' xom16_zero_close)
       = dropped
         ++ map base (feat_partition "XOM" (process' xom16_zero_close))) /\
  ~ (exists dropped,
       sort_by_date (partition "XOM" (coerce' xom14_latest_first))
       = dropped
         ++ map base (feat_partition "XOM" (process' xom14_latest_first))).
Proof.
  split; [|split; [|split]].
  - destruct (engineer' (clean' xom16_volume_gap) !! 14) as [fr|] eqn:E;
      [|vm_compute in E; discriminate].
    exists fr. split; [apply list_elem_of_lookup; by exists 14|].
    split.
    + vm_compute in E. injection E as <-. reflexivity.
    + intros Hin. apply list_elem_of_lookup in Hin as [i Hi].
      vm_compute in E. injection E as <-.
      destruct i as [|[|i]]; vm_compute in Hi; discriminate.
  - intros [dropped Hd].
    assert (Hlen : length dropped = 14).
    { apply (f_equal length) in Hd. rewrite length_app in Hd.
      assert (H16 : length (partition "XOM" (coerce' xom16_volume_gap)) = 16)
        by reflexivity.
      assert (H2 : length (map base (feat_partition "XOM"
                                       (process' xom16_volume_gap))) = 2)
        by (vm_compute; reflexivity).
      rewrite H16, H2 in Hd. clear -Hd. lia. }
    apply (f_equal (drop 14)) in Hd.
    rewrite drop_app_length' in Hd by done.
    apply (f_equal (fun l => Date <$> head l)) in Hd.
    vm_compute in Hd. discriminate.
  - intros [dropped Hd].
    assert (Hlen : length dropped = 14).
    { apply (f_equal length) in Hd. rewrite length_app in Hd.
      assert (H16 : length (partition "XOM" (coerce' xom16_zero_close)) = 16)
        by reflexivity.
      assert (H2 : length (map base (feat_partition "XOM"
                                       (process' xom16_zero_close))) = 2)
        by (vm_compute; reflexivity).
      rewrite H16, H2 in Hd. clear -Hd. lia. }
    apply (f_equal (drop 14)) in Hd.
    rewrite drop_app_length' in Hd by done.
    apply (f_equal (fun l => Date <$> head l)) in Hd.
    vm_compute in Hd. discriminate.
  - intros [dropped Hd].
    assert (Hlen : length dropped = 13).
    { apply (f_equal length) in Hd. rewrite length_app in Hd.
      assert (H14 : length (sort_by_date
                              (partition "XOM" (coerce' xom14_latest_first)))
                    = 14)
        by reflexivity.
      assert (H1 : length (map base (feat_partition "XOM"
                                       (process' xom14_latest_first))) = 1)
        by (vm_compute; reflexivity).
      rewrite H14, H1 in Hd. clear -Hd. lia. }
    apply (f_equal (drop 13)) in Hd.
    rewrite drop_app_length' in Hd by done.
    apply (f_equal (fun l => Date <$> head l)) in Hd.
    vm_compute in Hd. discriminate.
Qed.


End Concrete.
End PreprocessFacts.

(** ** The fetch loop *)

Module FetchFacts.
Import Fetch.

Section Fetcher.
Variable yf_download : string -> result (list (row sqlval)).
Variable to_sql_error : list (row sqlval) -> list (row sqlval) -> option exn.

#[local] Abbreviation body := (fetch_and_store_body yf_download to_sql_error).
#[local] Abbreviation fetch1 := (fetch_and_store_data yf_download to_sql_error).
#[local] Abbreviation fetch_all' := (fetch_all yf_download to_sql_error).
#[local] Abbreviation contribution' := (contribution yf_download to_sql_error).
#[local] Abbreviation escapes' := (escapes yf_download to_sql_error).

Lemma fetch_all_app l1 l2 st :
  fetch_all' (l1 ++ l2) st
  = match fetch_all' l1 st with
    | Ok st' => fetch_all' l2 st'
    | Raise e => Raise e
    end.
Proof.
  revert st. induction l1 as [|s l1 IH]; intros st; [done|].
  simpl. destruct (fetch1 (ticker s) (company s) st); [apply IH|done].
Qed.

(** One call never fails on an [Exception]: it stores the ticker's rows and
    prints one line, or leaves the table alone and prints one line. *)
Lemma fetch_and_store_data_ok s st :
  escapes' s (table st) = false ->
  exists out,
    fetch1 (ticker s) (company s) st
    = Ok (mkState (table st ++ contribution' s (table st))
                  (stdout st ++ [out])).
Proof.
  unfold Fetch.escapes, Fetch.fetch_and_store_data, Fetch.contribution,
    Fetch.fetch_and_store_body. simpl.
  destruct (yf_download (ticker s)) as [frame|[msg|msg]]; simpl.
  - destruct (to_sql_error _ _) as [[msg|msg]|]; simpl; intros; try done.
    + rewrite app_nil_r. by eexists.
    + by eexists.
  - intros _. rewrite app_nil_r. by eexists.
  - done.
Qed.

(** C9: in a batch, an exception raised while one ticker is fetched or
    stored is caught and logged inside [fetch_and_store_data] and the loop
    goes on with the tickers that follow, on the table as it was.  When
    nothing that escapes [except Exception] is raised, the batch runs to
    its end: every ticker is attempted, each prints one line, and the
    table receives, in order, the rows of every ticker whose fetch and
    store succeed. *)
Theorem batch_survives_ticker_failure :
  (forall before failing after st st1 msg,
     fetch_all' before st = Ok st1 ->
     body (ticker failing) (company failing) st1 = Raise (Exception msg) ->
     fetch_all' (before ++ failing :: after) st
     = fetch_all' after
         (mkState (table st1)
                  (stdout st1 ++ [error_message (ticker failing) msg]))) /\
  (forall stocks st,
     (forall s tbl, s ∈ stocks -> escapes' s tbl = false) ->
     exists st',
       fetch_all' stocks st = Ok st' /\
       table st'
       = foldl (fun tbl s => tbl ++ contribution' s tbl) (table st) stocks /\
       length (stdout st') = length (stdout st) + length stocks).
Proof.
  split.
  - intros before failing after st st1 msg Hb Hf.
    rewrite fetch_all_app, Hb. simpl.
    unfold Fetch.fetch_and_store_data. by rewrite Hf.
  - intros stocks. induction stocks as [|s stocks IH]; intros st Hno.
    + exists st. simpl. split; [done|]. split; [done|lia].
    + destruct (fetch_and_store_data_ok s st) as [out Hs].
      { apply Hno. left. }
      destruct (IH (mkState (table st ++ contribution' s (table st))
                            (stdout st ++ [out]))) as (st' & Hr & Ht & Hl).
      { intros s' tbl Hin. apply Hno. by right. }
      exists st'. simpl. rewrite Hs. split; [exact Hr|]. split; [exact Ht|].
      rewrite Hl. simpl. rewrite length_app. simpl. lia.
Qed.

End Fetcher.

Lemma batch_survives_ticker_failure_witness :
  exists st',
    fetch_all Examples.flaky_download Examples.to_sql_succeeds
      Examples.three_stocks (mkState [] [])
    = Ok st' /\
    map Ticker (table st') = [Some "XOM"; Some "COP"] /\
    length (stdout st') = 3.
Proof.
  destruct (proj2 (batch_survives_ticker_failure Examples.flaky_download
                     Examples.to_sql_succeeds)
              Examples.three_stocks (mkState [] []))
    as (st' & Hrun & Htable & Hout).
  { intros s tbl Hs.
    repeat (apply elem_of_cons in Hs as [->|Hs]; [reflexivity|]).
    by apply elem_of_nil in Hs. }
  exists st'. split; [exact Hrun|]. split; [|exact Hout].
  rewrite Htable. reflexivity.
Defined.

End FetchFacts.

(** ** Scaling and splitting in the trainers *)

Module TrainFacts.
Import Train.

Section Split.
Variable sqrtQ : Q -> Q.
Variable permutation : nat -> list nat.

#[local] Abbreviation rf_prepare' := (rf_prepare sqrtQ permutation).
#[local] Abbreviation lstm_prepare' := (lstm_prepare permutation).
#[local] Abbreviation documented' := (lstm_prepare_as_documented permutation).
#[local] Abbreviation split' := (train_test_split permutation).

(** The Random Forest notebook fits its scaler on the training part. *)
Lemma rf_scaler_fit_on_train X y p :
  rf_prepare' X y = Some p ->
  exists s,
    split' X y = Some s /\
    standard_fit sqrtQ (X_train s) = Some (scaler p) /\
    X_train_scaled p = standard_transform (scaler p) (X_train s) /\
    X_test_scaled p = standard_transform (scaler p) (X_test s).
Proof.
  unfold Train.rf_prepare, fit_transform. simpl.
  destruct (split' X y) as [s|]; [|done]. simpl.
  destruct (standard_fit sqrtQ (X_train s)) as [sc|] eqn:Hfit; [|done]. simpl.
  intros Hp. simplify_eq. by exists s.
Qed.

(** The LSTM notebook fits its scaler on all of [X], before the split. *)
Lemma lstm_scaler_fit_on_all X y p :
  lstm_prepare' X y = Some p ->
  minmax_fit X = Some (scaler p) /\
  split' (minmax_transform (scaler p) X) y
  = Some (mkSplit (X_train_scaled p) (X_test_scaled p)
                  (train_target p) (test_target p)).
Proof.
  unfold Train.lstm_prepare, fit_transform. simpl.
  destruct (minmax_fit X) as [sc|]; [|done]. simpl.
  destruct (split' (minmax_transform sc X) y) as [[]|] eqn:Hs; [|done]. simpl.
  intros Hp. by simplify_eq.
Qed.

Ltac enum5 n := destruct n as [|[|[|[|[|n]]]]]; try lia.

Ltac split_list_facts :=
  repeat match goal with
  | H : NoDup (_ :: _) |- _ =>
      let H1 := fresh "Hne" in
      let H2 := fresh "Hnd" in
      destruct (proj1 (NoDup_cons _ _) H) as [H1 H2]; clear H
  | H : _ ∉ _ :: _ |- _ =>
      let H1 := fresh "Hne" in
      let H2 := fresh "Hni" in
      destruct (proj1 (not_elem_of_cons _ _ _) H) as [H1 H2]; clear H
  | H : Forall _ (_ :: _) |- _ =>
      let H1 := fresh "Hlt" in
      let H2 := fresh "Hall" in
      destruct (proj1 (Forall_cons _ _ _) H) as [H1 H2]; clear H
  end.

(** C1 fails on the code.  In the LSTM notebook the range scaler is fitted
    by [fit_transform] on the whole feature matrix and the split comes
    after, so the fitted minima and maxima include the test partition; the
    Random Forest notebook, and the text of the LSTM notebook itself, fit
    on the training partition only.  On five samples that are twice the
    unit vectors the two scalers differ whatever the shuffle: the held-out
    sample carries the only non-zero value of one feature. *)
Theorem lstm_scaler_sees_test_partition :
  is_shuffle 5 (permutation 5) = true ->
  exists p q,
    lstm_prepare' Examples.X5 Examples.y5 = Some p /\
    documented' Examples.X5 Examples.y5 = Some q /\
    minmax_fit Examples.X5 = Some (scaler p) /\
    data_max_ (scaler p) = [2; 2; 2; 2; 2]%Q /\
    scaler q <> scaler p.
Proof.
  intros Hperm.
  unfold is_shuffle in Hperm.
  apply andb_prop in Hperm as [Hperm Hlen].
  apply andb_prop in Hperm as [Hnd Hlt].
  apply Nat.eqb_eq in Hlen. apply bool_decide_eq_true in Hnd.
  assert (Hlt' : Forall (fun i => i < 5) (permutation 5)).
  { apply Forall_forall. intros i Hi.
    apply Nat.ltb_lt. rewrite forallb_forall in Hlt.
    by apply Hlt, list_elem_of_In. }
  clear Hlt.
  (* only the shuffle of five indices matters *)
  assert (E1 : lstm_prepare' Examples.X5 Examples.y5
               = lstm_prepare (fun _ => permutation 5) Examples.X5 Examples.y5)
    by reflexivity.
  assert (E2 : documented' Examples.X5 Examples.y5
               = lstm_prepare_as_documented (fun _ => permutation 5)
                   Examples.X5 Examples.y5)
    by reflexivity.
  rewrite E1, E2. clear E1 E2.
  set (l := permutation 5) in *. clearbody l.
  destruct l as [|a [|b [|c [|d [|e [|? ?]]]]]]; try done. clear Hlen.
  split_list_facts.
  enum5 a; enum5 b; enum5 c; enum5 d; enum5 e;
    (eexists; eexists;
     split; [reflexivity|];
     split; [reflexivity|];
     split; [reflexivity|];
     split; [reflexivity|];
     vm_compute; discriminate).
Qed.

End Split.

Lemma lstm_scaler_sees_test_partition_witness :
  exists p q,
    lstm_prepare Examples.shuffle Examples.X5 Examples.y5 = Some p /\
    lstm_prepare_as_documented Examples.shuffle Examples.X5 Examples.y5
    = Some q /\
    data_max_ (scaler p) = [2; 2; 2; 2; 2]%Q /\
    data_max_ (scaler q) = [2; 0; 2; 2; 2]%Q.
Proof.
  destruct (lstm_scaler_sees_test_partition Examples.shuffle)
    as (p & q & Hp & Hq & _ & Hmax & _).
  { reflexivity. }
  exists p, q. split; [exact Hp|]. split; [exact Hq|]. split; [exact Hmax|].
  vm_compute in Hq. by injection Hq as <-.
Defined.

End TrainFacts.

(** ** Further properties of the feature engine *)

Module FeatureEngineFacts.
Import GroupBy Series Preprocess GroupByFacts SeriesFacts PreprocessFacts.

Section Engine.
Variable parse_float : string -> option Q.
Variable rstd : running_std.

#[local] Abbreviation coerce := (coerce parse_float).
#[local] Abbreviation clean := (clean parse_float).
#[local] Abbreviation engineer := (engineer rstd).
#[local] Abbreviation group_features := (group_features rstd).
#[local] Abbreviation process := (process parse_float rstd).

(** The row at place [i] of a ticker's part of the feature table, with its
    averages, return and lags in the terms of [FeatureSpec]. *)
Lemma feat_row_spec T (tbl : list (row sqlval)) i fr :
  feat_partition T (engineer (clean tbl)) !! i = Some fr ->
  partition T (clean tbl) !! i = Some (base fr) /\
  MA7 fr
  = FeatureSpec.moving_average 7 i (adj_values (partition T (clean tbl))) /\
  MA14 fr
  = FeatureSpec.moving_average 14 i (adj_values (partition T (clean tbl))) /\
  Daily_Return fr
  = FeatureSpec.daily_return i (adj_values (partition T (clean tbl))) /\
  Lag_1 fr = FeatureSpec.lag 1 i (adj_values (partition T (clean tbl))) /\
  Lag_2 fr = FeatureSpec.lag 2 i (adj_values (partition T (clean tbl))).
Proof.
  intros Hfr.
  apply feat_partition_lookup in Hfr as (r & Hr & ->).
  split; [exact Hr|].
  apply group_features_spec;
    [apply partition_clean_fin|by eapply lookup_lt_Some].
Qed.

Lemma adj_close_at T (tbl : list (row sqlval)) i r :
  partition T (clean tbl) !! i = Some r ->
  Adj_Close r = Fin (nth i (adj_values (partition T (clean tbl))) 0%Q).
Proof.
  intros Hr.
  pose proof (fin_column _ (partition_clean_fin parse_float T tbl)) as Hcol.
  apply (f_equal (fun l => l !! i)) in Hcol.
  change (map ?f ?l) with (f <$> l) in Hcol.
  rewrite !list_lookup_fmap, Hr in Hcol. simpl in Hcol.
  rewrite nth_lookup.
  destruct (adj_values (partition T (clean tbl)) !! i); by simplify_eq/=.
Qed.

(** X1: for every row of the feature table, [Lag_1] is the adjusted close
    of the previous row of the same ticker and [Lag_2] that of the row
    before; they are null on the ticker's first row and first two rows. *)
Theorem lags_correct T (tbl : list (row sqlval)) i fr :
  feat_partition T (engineer (clean tbl)) !! i = Some fr ->
  let adj := adj_values (partition T (clean tbl)) in
  Lag_1 fr = FeatureSpec.lag 1 i adj /\
  Lag_2 fr = FeatureSpec.lag 2 i adj /\
  (i < 1 -> Lag_1 fr = NaN) /\
  (i < 2 -> Lag_2 fr = NaN) /\
  (1 <= i -> Lag_1 fr = Fin (nth (i - 1) adj 0%Q)) /\
  (2 <= i -> Lag_2 fr = Fin (nth (i - 2) adj 0%Q)).
Proof.
  intros Hfr adj.
  destruct (feat_row_spec T tbl i fr Hfr) as (_ & _ & _ & _ & H1 & H2).
  fold adj in H1, H2. rewrite H1, H2. unfold FeatureSpec.lag.
  repeat split; intros;
    by rewrite ?decide_True, ?decide_False by lia.
Qed.

Lemma lag_step T (tbl : list (row sqlval)) i fr fr' :
  feat_partition T (engineer (clean tbl)) !! i = Some fr ->
  feat_partition T (engineer (clean tbl)) !! S i = Some fr' ->
  Lag_1 fr' = Adj_Close (base fr) /\ Lag_2 fr' = Lag_1 fr.
Proof.
  intros Hfr Hfr'.
  apply feat_partition_lookup in Hfr as (r & Hr & ->).
  apply feat_partition_lookup in Hfr' as (r' & Hr' & ->).
  by apply group_lag_step.
Qed.

(** X2: in the feature table, going one row down within a ticker, [Lag_1]
    of the lower row is the adjusted close of the upper row and [Lag_2] of
    the lower row is [Lag_1] of the upper row. *)
Theorem lags_chain T (tbl : list (row sqlval)) i fr fr' :
  feat_partition T (engineer (clean tbl)) !! i = Some fr ->
  feat_partition T (engineer (clean tbl)) !! S i = Some fr' ->
  Lag_1 fr' = Adj_Close (base fr) /\ Lag_2 fr' = Lag_1 fr.
Proof. apply lag_step. Qed.

(** X18: on every row of the feature table the daily return is the
    adjusted close divided by [Lag_1], less one (in the arithmetic of the
    frame, where a null [Lag_1] gives a null return). *)
Theorem daily_return_from_lag T (tbl : list (row sqlval)) i fr :
  feat_partition T (engineer (clean tbl)) !! i = Some fr ->
  Daily_Return fr = fsub_fin (fdiv (Adj_Close (base fr)) (Lag_1 fr)) 1.
Proof.
  intros Hfr.
  destruct (feat_row_spec T tbl i fr Hfr) as (Hb & _ & _ & Hd & H1 & _).
  rewrite Hd, H1, (adj_close_at T tbl i _ Hb).
  unfold FeatureSpec.daily_return, FeatureSpec.lag.
  destruct i as [|j]; [done|].
  rewrite decide_True by lia. by replace (S j - 1) with j by lia.
Qed.

(** The first thirteen rows of a partition have no 14-day average. *)
Lemma warm_up_not_complete (grp : list (row float)) i r :
  Forall (fun r => is_fin (Adj_Close r) = true) grp ->
  i < length grp -> i < 13 ->
  no_null (group_features grp i r) = false.
Proof.
  intros Hfin Hi H13.
  destruct (group_features_spec rstd grp i r Hfin Hi) as (_ & H14 & _).
  unfold no_null, derived_defined. rewrite H14.
  unfold FeatureSpec.moving_average. rewrite decide_False by lia.
  simpl. by rewrite !andb_false_r.
Qed.

Lemma process_partition_sublist T (tbl : list (row sqlval)) :
  feat_partition T (process tbl)
    `sublist_of` drop 13 (engineer (partition T (clean tbl))).
Proof.
  { unfold Preprocess.process.
    rewrite feat_partition_dropna, engineer_partition.
    rewrite (engineer_single rstd T) by apply partition_Forall.
    set (grp := partition T (clean tbl)).
    set (l := imap (group_features grp) grp).
    unfold dropna. rewrite <- (take_drop 13 l) at 1. rewrite filter_app.
    rewrite (filter_none _ (take 13 l)).
    - simpl. apply sublist_filter.
    - apply Forall_forall. intros fr Hfr.
      apply list_elem_of_lookup in Hfr as [i Hi].
      apply lookup_take_Some in Hi as [Hi Hlt].
      unfold l in Hi. rewrite list_lookup_imap in Hi.
      destruct (grp !! i) as [r|] eqn:Hr; simplify_eq/=.
      assert (Hno : no_null (group_features grp i r) = false).
      { apply warm_up_not_complete;
          [apply partition_clean_fin|by eapply lookup_lt_Some|done]. }
      by rewrite Hno. }
Qed.

Lemma process_partition_length T (tbl : list (row sqlval)) :
  length (feat_partition T (process tbl))
  <= length (partition T (clean tbl)) - 13.
Proof.
  pose proof (process_partition_sublist T tbl) as Hsub.
  apply sublist_length in Hsub.
  by rewrite length_drop, engineer_length in Hsub.
Qed.

(** X4: whatever the data, no row of the first thirteen of a ticker's
    cleaned rows reaches the processed table: the rows emitted for a ticker
    are a sub-sequence of its feature rows from place 13 on, so a ticker
    with [n] cleaned rows has at most [n - 13] processed rows and one with
    thirteen rows or fewer has none. *)
Theorem warm_up_rows_never_emitted T (tbl : list (row sqlval)) :
  feat_partition T (process tbl)
    `sublist_of` drop 13 (engineer (partition T (clean tbl))) /\
  length (feat_partition T (process tbl))
  <= length (partition T (clean tbl)) - 13.
Proof.
  split; [apply process_partition_sublist|apply process_partition_length].
Qed.

(** X5: the processed table keeps the raw columns and the order of the raw
    table: its rows, stripped of the derived columns, are a sub-sequence of
    the raw rows with the adjusted close read as a number. *)
Theorem processed_rows_keep_raw_order (tbl : list (row sqlval)) :
  map base (process tbl) `sublist_of` coerce tbl /\
  length (process tbl) <= length tbl.
Proof.
  assert (Hsub : map base (process tbl) `sublist_of` coerce tbl).
  { unfold Preprocess.process, dropna.
    transitivity (clean tbl).
    - rewrite <- (engineer_base rstd (clean tbl)) at 2.
      change (map base ?l) with (base <$> l).
      apply fmap_sublist, sublist_filter.
    - apply sublist_filter. }
  split; [exact Hsub|].
  apply sublist_length in Hsub.
  unfold Preprocess.coerce in Hsub. by rewrite !length_map in Hsub.
Qed.

End Engine.

(** *** On any table *)

Section RawEngine.
Variable parse_number : string -> option float.
Variable rstd : running_std.

#[local] Abbreviation coerce := (RawTable.coerce parse_number).
#[local] Abbreviation clean := (RawTable.clean parse_number).
#[local] Abbreviation process := (RawTable.process parse_number rstd).
#[local] Abbreviation usable := (RawTable.usable parse_number).
#[local] Abbreviation engineer := (engineer rstd).
#[local] Abbreviation group_features := (group_features rstd).

(** A row that [dropna] keeps is found at a place of its ticker's part of
    the feature table. *)
Lemma process_row_place (tbl : list (row RawTable.cell)) fr :
  fr ∈ process tbl ->
  no_null fr = true /\
  exists T i r,
    partition T (clean tbl) !! i = Some r /\
    fr = group_features (partition T (clean tbl)) i r.
Proof.
  intros Hfr. unfold RawTable.process, dropna in Hfr.
  apply list_elem_of_filter in Hfr as [Hnn Hfr].
  split; [done|].
  unfold no_null in Hnn.
  apply andb_prop in Hnn as [Hnn _]. apply andb_prop in Hnn as [Hraw _].
  assert (HT : exists T, Ticker (base fr) = Some T).
  { unfold raw_complete in Hraw.
    repeat (apply andb_prop in Hraw as [Hraw ?]).
    match goal with
    | H : bool_decide (is_Some (Ticker _)) = true |- _ =>
        apply bool_decide_eq_true in H; destruct H as [T HT]
    end.
    by exists T. }
  destruct HT as [T HT].
  assert (Hin : fr ∈ feat_partition T (engineer (clean tbl))).
  { apply list_elem_of_filter. by split. }
  apply list_elem_of_lookup in Hin as [i Hi].
  apply feat_partition_lookup in Hi as (r & Hr & ->).
  by exists T, i, r.
Qed.

Lemma process_fin (tbl : list (row RawTable.cell)) fr :
  fr ∈ process tbl ->
  is_fin (Adj_Close (base fr)) = true /\
  is_fin (Daily_Return fr) = true /\
  is_fin (Lag_1 fr) = true /\ is_fin (Lag_2 fr) = true.
Proof.
  intros Hfr.
  destruct (process_row_place tbl fr Hfr) as (Hnn & T & i & r & Hr & ->).
  set (grp := partition T (clean tbl)) in *.
  unfold no_null in Hnn. apply andb_prop in Hnn as [_ Hder].
  unfold derived_defined in Hder.
  repeat (apply andb_prop in Hder as [Hder ?]).
  repeat match goal with
         | H : negb _ = true |- _ => apply negb_true_iff in H
         end.
  destruct (group_ma7_defined rstd grp i r ltac:(eassumption))
    as (H6 & Hi & Hfin).
  destruct (group_volatility_defined rstd grp i r ltac:(eassumption))
    as (_ & _ & Hret).
  split; [|split; [|split]].
  - cbn [base Preprocess.group_features].
    rewrite <- (nth_adj_close grp i r Hr). apply Hfin. lia.
  - cbn [Daily_Return Preprocess.group_features]. apply Hret. lia.
  - cbn [Lag_1 Preprocess.group_features]. rewrite group_lag by done.
    rewrite decide_False by lia. apply Hfin. lia.
  - cbn [Lag_2 Preprocess.group_features]. rewrite group_lag by done.
    rewrite decide_False by lia. apply Hfin. lia.
Qed.

(** X3: whatever the raw table, every row of the processed table holds a
    finite number in its adjusted close, its daily return and its two
    lags.  [dropna] itself lets an infinity pass; but a row with an
    infinite close, or within two rows after one, has no 7-day average,
    and a row with an infinite return has no volatility. *)
Theorem processed_rows_finite (tbl : list (row RawTable.cell)) fr :
  fr ∈ process tbl ->
  is_fin (Adj_Close (base fr)) = true /\
  is_fin (Daily_Return fr) = true /\
  is_fin (Lag_1 fr) = true /\ is_fin (Lag_2 fr) = true.
Proof. apply process_fin. Qed.

Lemma raw_partition_clean T (tbl : list (row RawTable.cell)) :
  partition T (clean tbl) = clean (partition T tbl).
Proof. apply read_partition. Qed.

Lemma raw_usable_clean (grp : list (row RawTable.cell)) :
  Forall (fun r => usable r = true) grp ->
  clean grp = coerce grp /\
  Forall (fun r => Preprocess.usable r = true) (coerce grp).
Proof.
  intros Hus.
  assert (H : Forall (fun r => Preprocess.usable r = true) (coerce grp))
    by (by apply Forall_fmap).
  split; [by apply read_usable|done].
Qed.

(** The processed rows of a ticker with usable raw rows are its feature
    rows from place 13 on. *)
Lemma process_partition_drop T (tbl : list (row RawTable.cell)) :
  Forall (fun r => usable r = true) (partition T tbl) ->
  feat_partition T (process tbl)
  = drop 13 (feat_partition T (engineer (clean tbl))).
Proof.
  intros Hus. destruct (raw_usable_clean _ Hus) as [Hcl Hus'].
  unfold RawTable.process.
  rewrite dropna_usable; rewrite raw_partition_clean, Hcl; [|done].
  by rewrite engineer_partition_imap, raw_partition_clean, Hcl.
Qed.

Lemma process_partition_base T (tbl : list (row RawTable.cell)) :
  Forall (fun r => usable r = true) (partition T tbl) ->
  map base (feat_partition T (process tbl))
  = drop 13 (coerce (partition T tbl)).
Proof.
  intros Hus. apply read_process_usable. by apply Forall_fmap.
Qed.

Lemma return_blocks_row T (tbl : list (row RawTable.cell)) i j fr fr_j :
  feat_partition T (engineer (clean tbl)) !! i = Some fr ->
  feat_partition T (engineer (clean tbl)) !! j = Some fr_j ->
  i - 6 <= j <= i ->
  is_fin (Daily_Return fr_j) = false ->
  Volatility fr = NaN /\ fr ∉ process tbl.
Proof.
  intros Hfr Hfrj Hj Hnf.
  apply feat_partition_lookup in Hfr as (r & Hr & ->).
  apply feat_partition_lookup in Hfrj as (rj & Hrj & ->).
  set (grp := partition T (clean tbl)) in *.
  assert (Hv : Volatility (group_features grp i r) = NaN).
  { destruct (isna (Volatility (group_features grp i r))) eqn:E;
      [by destruct (Volatility _)|].
    apply group_volatility_defined in E as (_ & _ & Hall).
    specialize (Hall j Hj).
    cbn [Daily_Return Preprocess.group_features] in Hnf. congruence. }
  split; [exact Hv|].
  intros Hin. unfold RawTable.process, dropna in Hin.
  apply list_elem_of_filter in Hin as [Hnn _].
  unfold no_null, derived_defined in Hnn. rewrite Hv in Hnn.
  simpl in Hnn. by rewrite !andb_false_r in Hnn.
Qed.

(** X21: one return that is not a finite number costs seven rows.  The row
    of such a return (the row after a zero close, a close beyond the range
    of a double times the one before it, an infinite close or the row
    after it) and the six rows of the ticker that follow it have no
    volatility, and none of them reaches the processed table: the rows
    emitted for a ticker need not be consecutive. *)
Theorem infinite_return_blocks_seven_rows
    T (tbl : list (row RawTable.cell)) i j fr fr_j :
  feat_partition T (engineer (clean tbl)) !! i = Some fr ->
  feat_partition T (engineer (clean tbl)) !! j = Some fr_j ->
  i - 6 <= j <= i ->
  is_fin (Daily_Return fr_j) = false ->
  Volatility fr = NaN /\ fr ∉ process tbl.
Proof. apply return_blocks_row. Qed.

(** X19: fetched twice, processed once.  When the table holds the same
    usable rows of a ticker twice in a row (the fetch notebook was run
    twice) and they are thirteen or more, the engine treats them as one
    series of [2n] rows: the first 13 rows of the first copy are dropped
    and the whole second copy is emitted, its first rows with windows and
    lags that reach back into the end of the first copy. *)
Theorem refetched_rows_keep_warm_up T (tbl : list (row RawTable.cell)) :
  Forall (fun r => usable r = true) (partition T tbl) ->
  13 <= length (partition T tbl) ->
  map base (feat_partition T (process (tbl ++ tbl)))
  = drop 13 (coerce (partition T tbl)) ++ coerce (partition T tbl) /\
  length (feat_partition T (process (tbl ++ tbl)))
  = 2 * length (partition T tbl) - 13.
Proof.
  intros Hus Hn.
  assert (Hp : partition T (tbl ++ tbl) = partition T tbl ++ partition T tbl).
  { unfold partition. apply filter_app. }
  assert (Hus2 : Forall (fun r => usable r = true) (partition T (tbl ++ tbl))).
  { rewrite Hp. by apply Forall_app. }
  assert (Hb : map base (feat_partition T (process (tbl ++ tbl)))
               = drop 13 (coerce (partition T tbl))
                 ++ coerce (partition T tbl)).
  { rewrite (process_partition_base _ _ Hus2), Hp.
    unfold RawTable.coerce. rewrite map_app.
    rewrite drop_app_le by (rewrite length_map; lia). done. }
  split; [exact Hb|].
  rewrite <- (length_map base), Hb, length_app, length_drop.
  unfold RawTable.coerce. rewrite length_map. lia.
Qed.

End RawEngine.

Section Concrete.
Import Examples.

Lemma daily_return_from_lag_witness :
  exists fr,
    feat_partition "XOM"
      (Preprocess.engineer exact_std
         (Preprocess.clean parse_decimal xom15)) !! 3
    = Some fr /\
    Daily_Return fr = fsub_fin (fdiv (Fin 13) (Fin 12)) 1.
Proof.
  destruct (feat_partition "XOM"
              (Preprocess.engineer exact_std
                 (Preprocess.clean parse_decimal xom15)) !! 3)
    as [fr|] eqn:E; [|vm_compute in E; discriminate].
  exists fr. split; [reflexivity|].
  rewrite (daily_return_from_lag parse_decimal exact_std "XOM" xom15 3 fr E).
  vm_compute in E. by injection E as <-.
Defined.

(** Fourteen days at [2^-600] and eight at [2^600]: the return of day 15
    is out of range, days 15 to 21 are dropped, days 14 and 22 are
    emitted. *)
Lemma infinite_return_blocks_seven_rows_witness :
  exists fr,
    feat_partition "XOM"
      (Preprocess.engineer exact_std
         (RawTable.clean parse_number MoreExamples.xom22_out_of_range)) !! 20
    = Some fr /\
    Date (base fr) = Some 21%Z /\
    is_fin (Daily_Return fr) = true /\
    (fr ∉ RawTable.process parse_number exact_std
            MoreExamples.xom22_out_of_range) /\
    map (fun fr => Date (base fr))
        (RawTable.process parse_number exact_std
           MoreExamples.xom22_out_of_range)
    = [Some 14%Z; Some 22%Z].
Proof.
  destruct (feat_partition "XOM"
              (Preprocess.engineer exact_std
                 (RawTable.clean parse_number
                    MoreExamples.xom22_out_of_range)) !! 20)
    as [fr|] eqn:E; [|vm_compute in E; discriminate].
  destruct (feat_partition "XOM"
              (Preprocess.engineer exact_std
                 (RawTable.clean parse_number
                    MoreExamples.xom22_out_of_range)) !! 14)
    as [fr_j|] eqn:Ej; [|vm_compute in Ej; discriminate].
  exists fr. split; [reflexivity|].
  split; [vm_compute in E; by injection E as <-|].
  split; [vm_compute in E; by injection E as <-|].
  split; [|by vm_compute].
  apply (infinite_return_blocks_seven_rows parse_number exact_std "XOM"
           MoreExamples.xom22_out_of_range 20 14 fr fr_j E Ej); [lia|].
  vm_compute in Ej. by injection Ej as <-.
Defined.

Lemma refetched_rows_keep_warm_up_witness :
  length (feat_partition "XOM"
            (RawTable.process parse_number exact_std
               (map any_cell xom15 ++ map any_cell xom15)))
  = 17.
Proof.
  apply (refetched_rows_keep_warm_up parse_number exact_std "XOM"
           (map any_cell xom15)).
  - repeat constructor.
  - vm_compute. lia.
Defined.

Lemma lags_correct_witness :
  exists fr,
    feat_partition "XOM"
      (Preprocess.engineer exact_std
         (Preprocess.clean parse_decimal (cvx 1 70 :: xom15))) !! 2
    = Some fr /\
    Lag_1 fr = Fin 11 /\ Lag_2 fr = Fin 10.
Proof.
  destruct (feat_partition "XOM"
              (Preprocess.engineer exact_std
                 (Preprocess.clean parse_decimal (cvx 1 70 :: xom15))) !! 2)
    as [fr|] eqn:E; [|vm_compute in E; discriminate].
  exists fr. split; [reflexivity|].
  pose proof (lags_correct parse_decimal exact_std "XOM" (cvx 1 70 :: xom15)
                2 fr E) as (_ & _ & _ & _ & H1 & H2).
  split; [apply H1; lia|apply H2; lia].
Defined.

Lemma lags_chain_witness :
  exists fr fr',
    feat_partition "XOM"
      (Preprocess.engineer exact_std
         (Preprocess.clean parse_decimal xom15)) !! 4
    = Some fr /\
    feat_partition "XOM"
      (Preprocess.engineer exact_std
         (Preprocess.clean parse_decimal xom15)) !! 5
    = Some fr' /\
    Lag_1 fr' = Adj_Close (base fr) /\ Lag_2 fr' = Lag_1 fr.
Proof.
  destruct (feat_partition "XOM"
              (Preprocess.engineer exact_std
                 (Preprocess.clean parse_decimal xom15)) !! 4)
    as [fr|] eqn:E; [|vm_compute in E; discriminate].
  destruct (feat_partition "XOM"
              (Preprocess.engineer exact_std
                 (Preprocess.clean parse_decimal xom15)) !! 5)
    as [fr'|] eqn:E'; [|vm_compute in E'; discriminate].
  exists fr, fr'. split; [reflexivity|]. split; [reflexivity|].
  exact (lags_chain parse_decimal exact_std "XOM" xom15 4 fr fr' E E').
Defined.

Lemma processed_rows_finite_witness :
  exists fr,
    fr ∈ RawTable.process parse_number exact_std
           (map any_cell xom16_zero_close) /\
    Date (base fr) = Some 15%Z /\
    is_fin (Daily_Return fr) = true /\ is_fin (Lag_1 fr) = true.
Proof.
  destruct (RawTable.process parse_number exact_std
              (map any_cell xom16_zero_close) !! 1)
    as [fr|] eqn:E; [|vm_compute in E; discriminate].
  assert (Hin : fr ∈ RawTable.process parse_number exact_std
                       (map any_cell xom16_zero_close)).
  { apply list_elem_of_lookup. by exists 1. }
  exists fr. split; [exact Hin|]. split.
  - vm_compute in E. by injection E as <-.
  - pose proof (processed_rows_finite parse_number exact_std _ fr Hin)
      as (_ & Hd & H1 & _).
    by split.
Defined.

(** X22: the volatility itself can be an infinity, which is a value to
    [dropna].  With thirteen closes of 1 and then one of [2^600] the
    return of the last row is [2^600 - 1]; its square is beyond the range
    of a double, and the deviation that the running sums of the cell give
    that row is the infinity, not [NaN].  The return itself is finite. *)
Theorem volatility_overflows_to_infinity :
  Float64.volatility Float64Examples.leap_closes !! 13
  = Some PrimFloat.infinity /\
  isna Inf = false /\
  exists r q,
    Float64.daily_return Float64Examples.leap_closes !! 13 = Some r /\
    Float64.to_Q r = Some q.
Proof.
  split; [by vm_compute|]. split; [done|].
  eexists _, _. split; vm_compute; reflexivity.
Qed.

End Concrete.

End FeatureEngineFacts.

(** ** Further properties of the fetch notebook *)

Module FetchMoreFacts.
Import Fetch FetchFacts FetchedRows.

Section Fetcher.
Variable yf_download : string -> result (list (row sqlval)).
Variable to_sql_error : list (row sqlval) -> list (row sqlval) -> option exn.

#[local] Abbreviation body := (fetch_and_store_body yf_download to_sql_error).
#[local] Abbreviation fetch1 := (fetch_and_store_data yf_download to_sql_error).
#[local] Abbreviation fetch_all' := (fetch_all yf_download to_sql_error).
#[local] Abbreviation fetched_for := (fetched_for yf_download).
#[local] Abbreviation downloaded := (downloaded yf_download).

Lemma fetch1_appends s st st' :
  fetch1 (ticker s) (company s) st = Ok st' ->
  exists added out,
    table st' = table st ++ added /\
    stdout st' = stdout st ++ [out] /\
    Forall (fetched_for [s]) added.
Proof.
  unfold Fetch.fetch_and_store_data, Fetch.fetch_and_store_body.
  destruct (yf_download (ticker s)) as [frame|[msg|msg]] eqn:Hd; simpl.
  - destruct (to_sql_error _ _) as [[msg|msg]|]; simpl; intros; simplify_eq.
    + exists [], (error_message (ticker s) msg). simpl.
      by rewrite app_nil_r.
    + eexists _, _. simpl. split; [done|]. split; [done|].
      apply Forall_forall. intros r Hr.
      apply list_elem_of_fmap in Hr as (r0 & -> & Hr0).
      exists s, frame, r0. repeat split; try done. apply list_elem_of_here.
  - intros; simplify_eq.
    exists [], (error_message (ticker s) msg). simpl. by rewrite app_nil_r.
  - done.
Qed.

(** X6: a batch that runs to its end only appends.  The rows that were in
    the table stay where they were, in front; every row added is a row of
    the download of one of the listed stocks, with that stock's company
    and ticker filled in and its other columns as downloaded; and one line
    is printed per stock. *)
Theorem batch_only_appends stocks st st' :
  fetch_all' stocks st = Ok st' ->
  exists added printed,
    table st' = table st ++ added /\
    Forall (fetched_for stocks) added /\
    stdout st' = stdout st ++ printed /\
    length printed = length stocks.
Proof.
  revert st. induction stocks as [|s stocks IH]; intros st Hrun.
  - simpl in Hrun. simplify_eq. exists [], [].
    by rewrite !app_nil_r.
  - simpl in Hrun.
    destruct (fetch1 (ticker s) (company s) st) as [st1|] eqn:H1; [|done].
    destruct (fetch1_appends s st st1 H1) as (a1 & out & Ht1 & Ho1 & Ha1).
    destruct (IH st1 Hrun) as (a2 & p2 & Ht2 & Ha2 & Ho2 & Hl2).
    exists (a1 ++ a2), (out :: p2).
    rewrite Ht2, Ht1, Ho2, Ho1, <- !app_assoc. simpl.
    repeat split; try done; [|by rewrite Hl2].
    apply Forall_app. split.
    + eapply Forall_impl; [exact Ha1|].
      intros r (s0 & frame & r0 & Hs0 & ? & ? & ?).
      apply list_elem_of_singleton in Hs0 as ->.
      exists s, frame, r0. repeat split; try done. apply list_elem_of_here.
    + eapply Forall_impl; [exact Ha2|].
      intros r (s0 & frame & r0 & Hs0 & ? & ? & ?).
      exists s0, frame, r0. repeat split; try done. by apply list_elem_of_further.
Qed.

(** X7: what [except Exception] does not catch ends the batch.  When the
    download or the store of one stock raises such an exception, the loop
    raises it too and none of the stocks after it is fetched. *)
Theorem base_exception_aborts_batch before failing after st st1 msg :
  fetch_all yf_download to_sql_error before st = Ok st1 ->
  fetch_and_store_body yf_download to_sql_error
    (ticker failing) (company failing) st1
  = Raise (BaseException msg) ->
  fetch_all yf_download to_sql_error (before ++ failing :: after) st
  = Raise (BaseException msg).
Proof.
  intros Hb Hf. rewrite fetch_all_app, Hb. simpl.
  unfold Fetch.fetch_and_store_data. by rewrite Hf.
Qed.

Lemma fetch_all_downloaded stocks st :
  (forall tbl frame, to_sql_error tbl frame = None) ->
  (forall s msg, s ∈ stocks -> yf_download (ticker s) <> Raise (BaseException msg)) ->
  exists st',
    fetch_all' stocks st = Ok st' /\
    table st' = table st ++ downloaded stocks.
Proof.
  intros Hsql. revert st.
  induction stocks as [|s stocks IH]; intros st Hdl.
  - exists st. simpl. by rewrite app_nil_r.
  - simpl. unfold Fetch.fetch_and_store_data, Fetch.fetch_and_store_body.
    destruct (yf_download (ticker s)) as [frame|[msg|msg]] eqn:Hd.
    + rewrite Hsql.
      edestruct IH as (st' & Hrun & Ht).
      { intros s' msg Hs'. apply Hdl. by right. }
      exists st'. split; [exact Hrun|].
      rewrite Ht. simpl. by rewrite app_assoc.
    + edestruct IH as (st' & Hrun & Ht).
      { intros s' msg' Hs'. apply Hdl. by right. }
      exists st'. split; [exact Hrun|]. by rewrite Ht.
    + exfalso. apply (Hdl s msg); [left|done].
Qed.

(** X8: the table is written in append mode and nothing removes
    duplicates.  When the store does not fail and no download raises past
    [except Exception], running the batch a second time leaves every
    downloaded row twice in the table. *)
Theorem rerun_duplicates_rows stocks st :
  (forall tbl frame, to_sql_error tbl frame = None) ->
  (forall s msg, s ∈ stocks -> yf_download (ticker s) <> Raise (BaseException msg)) ->
  exists st1 st2,
    fetch_all' stocks st = Ok st1 /\
    fetch_all' stocks st1 = Ok st2 /\
    table st1 = table st ++ downloaded stocks /\
    table st2 = table st ++ downloaded stocks ++ downloaded stocks.
Proof.
  intros Hsql Hdl.
  destruct (fetch_all_downloaded stocks st Hsql Hdl) as (st1 & H1 & Ht1).
  destruct (fetch_all_downloaded stocks st1 Hsql Hdl) as (st2 & H2 & Ht2).
  exists st1, st2. repeat split; try done.
  by rewrite Ht2, Ht1, app_assoc.
Qed.

End Fetcher.

(** X9: flattening the column headers.  When it does not raise, every label
    of the result is a plain name and there are as many as before;
    flattening again changes nothing; headers that are plain names already
    are left as they are; and the two-level headers (field, ticker) of a
    download become the field names. *)
Theorem flatten_columns_plain (columns flat : list Columns.label) :
  Columns.flatten columns = Some flat ->
  Forall (fun col => Columns.is_name col = true) flat /\
  length flat = length columns /\
  Columns.flatten flat = Some flat /\
  (Forall (fun col => Columns.is_name col = true) columns -> flat = columns) /\
  (forall ticker names,
     columns = map (fun field => Columns.Levels [field; ticker]) names ->
     flat = map Columns.Name names).
Proof.
  unfold Columns.flatten. intros Hf.
  apply mapM_Some in Hf.
  induction Hf as [|col f cols flat Hcol _ (IH1 & IH2 & IH3 & IH4 & IH5)].
  - repeat split; try done. by intros ? [|??].
  - assert (Hname : Columns.is_name f = true
                    /\ Columns.flatten_label f = Some f).
    { destruct col as [s|[|p ps]]; simplify_eq/=; done. }
    destruct Hname as [Hn Hff].
    split; [by constructor|]. split; [by simpl; rewrite IH2|].
    split.
    { change (mapM Columns.flatten_label (f :: flat))
        with (x ← Columns.flatten_label f;
              k ← mapM Columns.flatten_label flat; Some (x :: k)).
      rewrite Hff. simpl. by rewrite IH3. }
    split.
    + intros Hall. inversion Hall as [|? ? Hc Hcs]; subst.
      rewrite (IH4 Hcs). f_equal.
      destruct col; simplify_eq/=; done.
    + intros ticker [|n names] Heq; simplify_eq/=.
      f_equal. by apply (IH5 ticker).
Qed.

Lemma batch_only_appends_witness :
  exists st',
    fetch_all Examples.flaky_download Examples.to_sql_succeeds
      Examples.three_stocks
      (mkState [Examples.xom 1 10] []) = Ok st' /\
    head (table st') = Some (Examples.xom 1 10) /\
    length (stdout st') = 3.
Proof.
  destruct (fetch_all Examples.flaky_download Examples.to_sql_succeeds
              Examples.three_stocks (mkState [Examples.xom 1 10] []))
    as [st'|] eqn:E; [|vm_compute in E; discriminate].
  exists st'. split; [reflexivity|].
  destruct (batch_only_appends _ _ _ _ _ E)
    as (added & printed & Ht & _ & Ho & Hl).
  rewrite Ht, Ho. simpl. split; [reflexivity|]. exact Hl.
Defined.

End FetchMoreFacts.

(** ** Further properties of the trainers *)

Module TrainMoreFacts.
Import Train Trainer.

Section Select.
Context {A : Type}.
Implicit Types (l : list A) (idx : list nat).

Lemma select_app idx1 idx2 l :
  select (idx1 ++ idx2) l = select idx1 l ++ select idx2 l.
Proof. unfold select. apply omap_app. Qed.

Lemma select_length idx l :
  Forall (fun i => i < length l) idx -> length (select idx l) = length idx.
Proof.
  unfold select. induction 1 as [|i idx Hi _ IH]; [done|].
  cbn. destruct (l !! i) eqn:E; simpl.
  - by rewrite IH.
  - apply lookup_ge_None in E. lia.
Qed.

Lemma select_elem_of idx l x : x ∈ select idx l -> x ∈ l.
Proof.
  unfold select. intros Hx. apply list_elem_of_omap in Hx as (i & _ & Hi).
  by eapply list_elem_of_lookup_2.
Qed.

Lemma select_seq_from pre l :
  select (seq (length pre) (length l)) (pre ++ l) = l.
Proof.
  unfold select. revert pre. induction l as [|x l IH]; intros pre; [done|].
  cbn. rewrite lookup_app_r, Nat.sub_diag by lia. simpl. f_equal.
  specialize (IH (pre ++ [x])).
  rewrite length_app, <- app_assoc, Nat.add_1_r in IH. exact IH.
Qed.

Lemma select_seq l : select (seq 0 (length l)) l = l.
Proof. apply (select_seq_from [] l). Qed.
End Select.

Lemma select_zip {A B} idx (X : list A) (y : list B) :
  length y = length X ->
  zip (select idx X) (select idx y) = select idx (zip X y).
Proof.
  intros Hlen. unfold select. induction idx as [|i idx IH]; [done|].
  cbn. rewrite lookup_zip_with.
  destruct (X !! i) as [x|] eqn:EX; destruct (y !! i) as [v|] eqn:Ey; simpl.
  - by rewrite IH.
  - apply lookup_lt_Some in EX. apply lookup_ge_None in Ey. lia.
  - apply lookup_ge_None in EX. apply lookup_lt_Some in Ey. lia.
  - exact IH.
Qed.

Lemma is_shuffle_spec n p :
  is_shuffle n p = true ->
  length p = n /\ Forall (fun i => i < n) p /\ p ≡ₚ seq 0 n.
Proof.
  unfold is_shuffle. intros H.
  apply andb_prop in H as [H Hlen]. apply andb_prop in H as [Hnd Hlt].
  apply Nat.eqb_eq in Hlen. apply bool_decide_eq_true in Hnd.
  assert (Hall : Forall (fun i => i < n) p).
  { apply Forall_forall. intros i Hi. apply Nat.ltb_lt.
    rewrite forallb_forall in Hlt. by apply Hlt, list_elem_of_In. }
  split; [done|]. split; [done|].
  apply submseteq_length_Permutation.
  - apply NoDup_submseteq; [done|]. intros i Hi.
    apply elem_of_seq. rewrite Forall_forall in Hall.
    specialize (Hall i Hi). lia.
  - by rewrite length_seq, Hlen.
Qed.

Lemma n_train_positive n : 0 < n - (n + 4) / 5 <-> 2 <= n.
Proof.
  pose proof (Nat.div_mod_eq (n + 4) 5) as Hd.
  pose proof (Nat.mod_upper_bound (n + 4) 5 ltac:(lia)) as Hm.
  lia.
Qed.

Lemma n_test_le n : (n + 4) / 5 <= n.
Proof.
  pose proof (Nat.div_mod_eq (n + 4) 5) as Hd.
  pose proof (Nat.mod_upper_bound (n + 4) 5 ltac:(lia)) as Hm.
  lia.
Qed.

(** *** The range scaler *)

Lemma Qmin'_le a b : (Qmin' a b <= a)%Q /\ (Qmin' a b <= b)%Q.
Proof.
  unfold Qmin'. destruct (Qle_bool a b) eqn:E.
  - apply Qle_bool_iff in E. split; [apply Qle_refl|done].
  - assert (~ (a <= b)%Q) by (rewrite <- Qle_bool_iff; congruence).
    split; [lra|apply Qle_refl].
Qed.

Lemma Qmax'_ge a b : (a <= Qmax' a b)%Q /\ (b <= Qmax' a b)%Q.
Proof.
  unfold Qmax'. destruct (Qle_bool a b) eqn:E.
  - apply Qle_bool_iff in E. split; [done|apply Qle_refl].
  - assert (~ (a <= b)%Q) by (rewrite <- Qle_bool_iff; congruence).
    split; [apply Qle_refl|lra].
Qed.

Lemma foldr_Qmin'_le d c x : x ∈ c -> (foldr Qmin' d c <= x)%Q.
Proof.
  induction c as [|y c IH]; intros Hx; [by apply elem_of_nil in Hx|].
  simpl. destruct (Qmin'_le y (foldr Qmin' d c)) as [H1 H2].
  apply elem_of_cons in Hx as [->|Hx]; [done|].
  eapply Qle_trans; [exact H2|by apply IH].
Qed.

Lemma foldr_Qmax'_ge d c x : x ∈ c -> (x <= foldr Qmax' d c)%Q.
Proof.
  induction c as [|y c IH]; intros Hx; [by apply elem_of_nil in Hx|].
  simpl. destruct (Qmax'_ge y (foldr Qmax' d c)) as [H1 H2].
  apply elem_of_cons in Hx as [->|Hx]; [done|].
  eapply Qle_trans; [by apply IH|exact H2].
Qed.

Lemma scaled_in_unit_range (lo hi x : Q) :
  (lo <= x)%Q -> (x <= hi)%Q ->
  in_unit_range (x * (1 / handle_zeros_in_scale (hi - lo) None)
                 + (0 - lo * (1 / handle_zeros_in_scale (hi - lo) None)))%Q.
Proof.
  intros Hlo Hhi. unfold in_unit_range, handle_zeros_in_scale.
  assert (Heps : (0 < 10 * eps)%Q /\ (10 * eps <= 1)%Q) by (by vm_compute).
  destruct (Qle_bool (10 * eps) (hi - lo)) eqn:E; simpl.
  - apply Qle_bool_iff in E.
    assert (Hd : (0 < hi - lo)%Q) by lra.
    assert (H : (x * (1 / (hi - lo)) + (0 - lo * (1 / (hi - lo)))
                 == (x - lo) / (hi - lo))%Q) by (field; lra).
    rewrite H. split.
    + apply Qle_shift_div_l; [done|]. lra.
    + apply Qle_shift_div_r; [done|]. lra.
  - assert (Hd : (hi - lo < 10 * eps)%Q).
    { apply Qnot_le_lt. intros H. apply Qle_bool_iff in H. congruence. }
    assert (H : (x * (1 / 1) + (0 - lo * (1 / 1)) == x - lo)%Q) by field.
    rewrite H. split; lra.
Qed.

(** A scaler fitted on [X] sends every value of [X] into [0, 1]. *)
Lemma minmax_fit_transform_range X p :
  minmax_fit X = Some p ->
  Forall (Forall in_unit_range) (minmax_transform p X).
Proof.
  intros Hfit. unfold minmax_fit in Hfit.
  destruct X as [|s0 X0] eqn:EX; [done|]. rewrite <- EX in *.
  injection Hfit as <-. clear EX s0 X0.
  unfold minmax_transform, minmax_min_, minmax_scale_. cbn [data_min_ data_max_].
  apply Forall_fmap, Forall_forall. intros s Hs. simpl.
  apply Forall_lookup. intros j v Hv.
  rewrite !lookup_zip_with in Hv. unfold columns in Hv.
  change (map ?f ?l) with (f <$> l) in Hv.
  rewrite !list_lookup_fmap in Hv.
  destruct (s !! j) as [x|] eqn:Hx; [|done]. simpl in Hv.
  destruct (seq 0 (length (hd [] X)) !! j) as [j'|] eqn:Hj; [|done].
  apply lookup_seq in Hj as [-> _]. simpl in Hv. simplify_eq.
  assert (Hin : x ∈ column j X).
  { unfold column. change (map ?f ?l) with (f <$> l).
    apply list_elem_of_fmap. exists s. split; [|done].
    by rewrite nth_lookup, Hx. }
  apply scaled_in_unit_range.
  - by apply foldr_Qmin'_le.
  - by apply foldr_Qmax'_ge.
Qed.

Section Split.
Variable sqrtQ : Q -> Q.
Variable permutation : nat -> list nat.

#[local] Abbreviation split' := (train_test_split permutation).

(** What a split with a good shuffle returns. *)
Lemma split_shape {A B} (X : list A) (y : list B) s n p :
  train_test_split permutation X y = Some s ->
  is_shuffle (length X) (permutation (length X)) = true ->
  n = length X -> p = permutation n ->
  length y = n /\ 2 <= n /\
  X_test s = select (take ((n + 4) / 5) p) X /\
  X_train s = select (drop ((n + 4) / 5) p) X /\
  y_test s = select (take ((n + 4) / 5) p) y /\
  y_train s = select (drop ((n + 4) / 5) p) y /\
  length (X_test s) = (n + 4) / 5 /\
  length (X_train s) = n - (n + 4) / 5 /\
  length (y_test s) = (n + 4) / 5 /\
  length (y_train s) = n - (n + 4) / 5.
Proof.
  intros Hs Hsh Hn Hp. unfold train_test_split in Hs.
  rewrite <- Hn, <- Hp in Hs. rewrite <- Hn, <- Hp in Hsh.
  destruct (decide _) as [[Hy Hpos]|]; [|done].
  apply n_train_positive in Hpos.
  destruct (is_shuffle_spec _ _ Hsh) as (Hlen & Hall & _).
  pose proof (n_test_le n) as Hle.
  remember ((n + 4) / 5) as t eqn:Et. clear Et.
  assert (Htr : take (n - t) (drop t p) = drop t p).
  { apply take_ge. rewrite length_drop. lia. }
  rewrite Htr in Hs. injection Hs as <-. cbn [X_test X_train y_test y_train].
  assert (Ht : Forall (fun i => i < length X) (take t p))
    by (rewrite <- Hn; by apply Forall_take).
  assert (Hd : Forall (fun i => i < length X) (drop t p))
    by (rewrite <- Hn; by apply Forall_drop).
  assert (Ht' : Forall (fun i => i < length y) (take t p))
    by (rewrite Hy; by apply Forall_take).
  assert (Hd' : Forall (fun i => i < length y) (drop t p))
    by (rewrite Hy; by apply Forall_drop).
  rewrite !select_length by done.
  rewrite length_take, length_drop.
  repeat split; try done; lia.
Qed.

(** X10: with a shuffle that holds every index once, the split loses no
    sample, repeats none and keeps every sample with its own target: the
    test pairs followed by the training pairs are a rearrangement of the
    pairs of [X] and [y].  The test part has [ceil(n/5)] samples and the
    training part the rest. *)
Theorem split_is_partition {A B} (X : list A) (y : list B) s :
  train_test_split permutation X y = Some s ->
  is_shuffle (length X) (permutation (length X)) = true ->
  zip (X_test s) (y_test s) ++ zip (X_train s) (y_train s) ≡ₚ zip X y /\
  length (X_test s) = (length X + 4) / 5 /\
  length (X_train s) = length X - (length X + 4) / 5 /\
  length (y_test s) = length (X_test s) /\
  length (y_train s) = length (X_train s).
Proof.
  intros Hs Hsh.
  destruct (split_shape X y s _ _ Hs Hsh eq_refl eq_refl)
    as (Hy & Hn & -> & -> & -> & -> & L1 & L2 & L3 & L4).
  rewrite L1, L2, L3, L4. repeat split; try done.
  rewrite !select_zip by done.
  rewrite <- select_app, take_drop.
  destruct (is_shuffle_spec _ _ Hsh) as (_ & _ & Hperm).
  assert (Hz : length (zip X y) = length X).
  { rewrite length_zip_with. lia. }
  transitivity (select (seq 0 (length (zip X y))) (zip X y));
    [|by rewrite select_seq].
  rewrite Hz. unfold select. by rewrite Hperm.
Qed.

Lemma split_succeeds {A B} (X : list A) (y : list B) :
  length y = length X -> 2 <= length X ->
  exists s, train_test_split permutation X y = Some s.
Proof.
  intros Hy Hn. unfold train_test_split.
  rewrite decide_True; [by eexists|].
  split; [done|]. by apply n_train_positive.
Qed.

(** X11: the split raises exactly when [X] and [y] have different lengths
    or there are fewer than two samples (the training part would be
    empty). *)
Theorem split_fails_iff {A B} (X : list A) (y : list B) :
  train_test_split permutation X y = None
  <-> length y <> length X \/ length X <= 1.
Proof.
  unfold train_test_split.
  pose proof (n_train_positive (length X)) as Hn.
  destruct (decide _) as [[Hy Ht]|Hno]; split; try done.
  - intros [?|?]; [done|]. apply Hn in Ht. lia.
  - intros _. destruct (decide (length y = length X)); [|by left].
    right. destruct (decide (length X <= 1)); [done|].
    exfalso. apply Hno. split; [done|]. apply Hn. lia.
Qed.

(** X12: the LSTM notebook fits the range scaler on all of [X], so every
    feature value it hands to the network, in the training part and in the
    test part alike, lies in [0, 1]. *)
Theorem lstm_inputs_in_unit_range X y r :
  lstm_prepare permutation X y = Some r ->
  Forall (Forall in_unit_range) (X_train_scaled r) /\
  Forall (Forall in_unit_range) (X_test_scaled r).
Proof.
  intros Hr.
  destruct (TrainFacts.lstm_scaler_fit_on_all permutation X y r Hr)
    as [Hfit Hs].
  pose proof (minmax_fit_transform_range X _ Hfit) as Hrange.
  unfold train_test_split in Hs. destruct (decide _); [|done].
  injection Hs as Htr Hte _ _. rewrite <- Htr, <- Hte.
  split; apply Forall_forall; intros s Hs;
    apply select_elem_of in Hs;
    by apply (proj1 (Forall_forall _ _) Hrange).
Qed.

(** *** The standard scaler *)

Lemma Qlen_cons (x : Q) (c : list Q) : (Qlen (x :: c) == Qlen c + 1)%Q.
Proof.
  unfold Qlen. cbn [length]. rewrite Nat2Z.inj_succ, <- Z.add_1_r.
  by rewrite inject_Z_plus.
Qed.

Lemma Qlen_pos (c : list Q) : c <> [] -> (0 < Qlen c)%Q.
Proof.
  intros Hc. unfold Qlen. destruct c as [|x c]; [done|].
  change 0%Q with (inject_Z 0). rewrite <- Zlt_Qlt. cbn [length]. lia.
Qed.

Lemma Qsum_centred (m sd : Q) (c : list Q) :
  (Qsum (map (fun x => (x - m) / sd) c) == (Qsum c - Qlen c * m) / sd)%Q.
Proof.
  induction c as [|x c IH].
  - unfold Qsum, Qlen. simpl. unfold Qdiv. ring.
  - change (Qsum (map (fun x => ((x - m) / sd)%Q) (x :: c)))
      with ((x - m) / sd + Qsum (map (fun x => (x - m) / sd) c))%Q.
    change (Qsum (x :: c)) with (x + Qsum c)%Q.
    rewrite IH, Qlen_cons. unfold Qdiv. ring.
Qed.

Lemma Qmean_centred (sd : Q) (c : list Q) :
  c <> [] ->
  (Qmean (map (fun x => (x - Qmean c) / sd) c) == 0)%Q.
Proof.
  intros Hc. pose proof (Qlen_pos c Hc) as Hpos.
  unfold Qmean at 1. rewrite Qsum_centred.
  assert (H0 : (Qsum c - Qlen c * Qmean c == 0)%Q).
  { unfold Qmean. field. lra. }
  rewrite H0. unfold Qdiv. ring.
Qed.

(** A column of the transformed matrix is the transformed column. *)
Lemma standard_transform_column X p k j :
  standard_fit sqrtQ X = Some p ->
  Forall (fun s => length s = k) X -> j < k ->
  exists sd,
    column j (standard_transform p X)
    = map (fun x => (x - Qmean (column j X)) / sd)%Q (column j X).
Proof.
  intros Hfit Hrect Hj. unfold standard_fit in Hfit.
  destruct X as [|s0 X0] eqn:EX; [done|]. rewrite <- EX in *.
  injection Hfit as <-.
  assert (Hk : length (hd [] X) = k).
  { rewrite EX. simpl. rewrite EX in Hrect. by inversion Hrect. }
  clear EX s0 X0.
  exists (handle_zeros_in_scale
            (sqrtQ (Qvar0 (column j X)))
            (Some (is_constant_feature (Qvar0 (column j X))
                     (Qmean (column j X)) (length (column j X))))).
  unfold column, standard_transform. cbn [mean_ scale_].
  rewrite !map_map. apply map_ext_in. intros s Hs.
  apply list_elem_of_In in Hs.
  pose proof (proj1 (Forall_forall _ _) Hrect s Hs) as Hls.
  rewrite (nth_lookup (zip_with _ _ _)).
  rewrite !lookup_zip_with. unfold columns.
  change (map ?f ?l) with (f <$> l).
  rewrite !list_lookup_fmap, Hk, lookup_seq_lt by done. simpl.
  destruct (s !! j) as [x|] eqn:Hx; simpl.
  - by rewrite nth_lookup, Hx.
  - apply lookup_ge_None in Hx. simpl in Hls. exfalso. lia.
Qed.

(** X17: the Random Forest notebook centres its training features.  When
    every sample has the same number [k] of features, each of the [k]
    columns of the scaled training matrix has mean zero, whatever the
    square root; nothing of the kind holds for the test matrix, which is
    scaled with the training statistics. *)
Theorem rf_training_columns_centred X y q k j :
  rf_prepare sqrtQ permutation X y = Some q ->
  Forall (fun s => length s = k) X -> j < k ->
  (Qmean (column j (X_train_scaled q)) == 0)%Q.
Proof.
  intros Hq Hrect Hj.
  destruct (TrainFacts.rf_scaler_fit_on_train sqrtQ permutation X y q Hq)
    as (s & Hs & Hfit & Htr & _).
  assert (Hrect' : Forall (fun r => length r = k) (X_train s)).
  { unfold train_test_split in Hs. destruct (decide _); [|done].
    injection Hs as <-. cbn [X_train].
    apply Forall_forall. intros r Hr. apply select_elem_of in Hr.
    by apply (proj1 (Forall_forall _ _) Hrect). }
  assert (Hne : X_train s <> []).
  { intros E. rewrite E in Hfit. done. }
  destruct (standard_transform_column _ _ k j Hfit Hrect' Hj) as [sd Hcol].
  rewrite Htr, Hcol. apply Qmean_centred.
  unfold column. by destruct (X_train s).
Qed.

End Split.

End TrainMoreFacts.

(** ** From the processed table to the trainers *)

Module PipelineFacts.
Import Preprocess PreprocessFacts FeatureEngineFacts Train Trainer
  TrainMoreFacts.

Section Pipeline.
Variable parse_float : string -> option Q.
Variable rstd : Series.running_std.
Variable sqrtQ : Q -> Q.
Variable permutation : nat -> list nat.

#[local] Abbreviation clean := (clean parse_float).
#[local] Abbreviation process := (process parse_float rstd).

(** X14: a ticker with fewer than fifteen cleaned rows cannot be trained
    on.  It has at most one processed row, and on at most one sample both
    notebooks raise: the LSTM one in the scaler (no sample) or in the split
    (one sample), the Random Forest one in the split. *)
Theorem trainers_need_fifteen_rows T (tbl : list (row sqlval)) X y :
  length (partition T (clean tbl)) < 15 ->
  feature_matrix (ticker_data T (process tbl)) = Some X ->
  target_vector (ticker_data T (process tbl)) = Some y ->
  lstm_prepare permutation X y = None /\
  rf_prepare sqrtQ permutation X y = None.
Proof.
  intros Hn HX Hy.
  pose proof (process_partition_length parse_float rstd T tbl) as Hlen.
  apply length_mapM in HX.
  change (ticker_data T (process tbl))
    with (feat_partition T (process tbl)) in HX.
  assert (HX1 : length X <= 1) by lia.
  split.
  - unfold lstm_prepare, fit_transform. simpl.
    destruct X as [|s [|s' X]]; [done| |simpl in HX1; lia].
    simpl. unfold train_test_split. simpl.
    rewrite decide_False; [done|]. intros [_ ?]. lia.
  - unfold rf_prepare, train_test_split.
    rewrite decide_False; [done|]. intros [_ Hpos].
    apply n_train_positive in Hpos. lia.
Qed.

Lemma minmax_transform_length sc X :
  length (minmax_transform sc X) = length X.
Proof. unfold minmax_transform. by rewrite length_map. Qed.

Lemma standard_transform_length sc X :
  length (standard_transform sc X) = length X.
Proof. unfold standard_transform. by rewrite length_map. Qed.

(** Both preparations succeed on two samples or more with as many targets,
    given a good shuffle, and split them alike. *)
Lemma prepare_succeeds X y :
  length y = length X -> 2 <= length X ->
  is_shuffle (length X) (permutation (length X)) = true ->
  exists p q,
    lstm_prepare permutation X y = Some p /\
    rf_prepare sqrtQ permutation X y = Some q /\
    length (X_test_scaled p) = (length X + 4) / 5 /\
    length (X_train_scaled p) = length X - (length X + 4) / 5 /\
    length (X_test_scaled q) = (length X + 4) / 5 /\
    length (X_train_scaled q) = length X - (length X + 4) / 5.
Proof.
  intros Hy Hn Hsh.
  pose proof (proj2 (n_train_positive (length X)) Hn) as Hpos.
  (* the LSTM notebook *)
  assert (HX : X <> []) by (intros ->; simpl in Hn; lia).
  destruct (minmax_fit X) as [sc|] eqn:Hfit; [|by destruct X].
  pose proof (minmax_transform_length sc X) as Hl.
  destruct (split_succeeds permutation (minmax_transform sc X) y)
    as [s Hs]; [by rewrite Hl|by rewrite Hl|].
  destruct (split_shape permutation _ _ s _ _ Hs
              ltac:(by rewrite Hl) eq_refl eq_refl)
    as (_ & _ & _ & _ & _ & _ & L1 & L2 & _ & _).
  rewrite Hl in L1, L2.
  (* the Random Forest notebook *)
  destruct (split_succeeds permutation X y Hy Hn) as [s' Hs'].
  destruct (split_shape permutation _ _ s' _ _ Hs' Hsh eq_refl eq_refl)
    as (_ & _ & _ & _ & _ & _ & L1' & L2' & _ & _).
  assert (Hne : X_train s' <> []).
  { intros E. rewrite E in L2'. change (length (@nil sample)) with 0 in L2'.
    lia. }
  destruct (standard_fit sqrtQ (X_train s')) as [sc'|] eqn:Hfit';
    [|by destruct (X_train s')].
  eexists _, _.
  split.
  { unfold lstm_prepare, fit_transform. simpl. rewrite Hfit. simpl.
    rewrite Hs. simpl. reflexivity. }
  split.
  { unfold rf_prepare, fit_transform. rewrite Hs'. simpl.
    rewrite Hfit'. simpl. reflexivity. }
  cbn [X_test_scaled X_train_scaled].
  by rewrite !standard_transform_length.
Qed.

End Pipeline.

(** *** On any table *)

Section RawPipeline.
Variable parse_number : string -> option float.
Variable rstd : Series.running_std.
Variable sqrtQ : Q -> Q.
Variable permutation : nat -> list nat.

#[local] Abbreviation coerce := (RawTable.coerce parse_number).
#[local] Abbreviation clean := (RawTable.clean parse_number).
#[local] Abbreviation process := (RawTable.process parse_number rstd).
#[local] Abbreviation usable := (RawTable.usable parse_number).

Lemma features_finite fr :
  is_fin (MA7 fr) = true -> is_fin (MA14 fr) = true ->
  is_fin (Volatility fr) = true ->
  is_fin (Lag_1 fr) = true -> is_fin (Lag_2 fr) = true ->
  exists s, mapM finite (features fr) = Some s /\ length s = 5.
Proof.
  unfold features.
  destruct (MA7 fr), (MA14 fr), (Volatility fr), (Lag_1 fr), (Lag_2 fr);
    try done.
  intros. by eexists.
Qed.

(** The trainers can read the processed rows of a ticker whose raw rows
    are all usable: five numbers and a target for each. *)
Lemma usable_extraction T (tbl : list (row RawTable.cell)) :
  Forall (fun r => usable r = true) (partition T tbl) ->
  exists X y,
    feature_matrix (ticker_data T (process tbl)) = Some X /\
    target_vector (ticker_data T (process tbl)) = Some y /\
    length X = length (partition T tbl) - 13 /\
    length y = length (partition T tbl) - 13 /\
    Forall (fun s => length s = 5) X.
Proof.
  intros Hus.
  destruct (raw_usable_clean parse_number _ Hus) as [Hcl Hus'].
  assert (Hrows : ticker_data T (process tbl)
                  = drop 13 (imap (group_features rstd (coerce (partition T tbl)))
                                  (coerce (partition T tbl)))).
  { change (ticker_data T (process tbl))
      with (feat_partition T (process tbl)).
    rewrite (process_partition_drop parse_number rstd T tbl Hus).
    by rewrite engineer_partition_imap, raw_partition_clean, Hcl. }
  set (grp := coerce (partition T tbl)) in *.
  assert (Hlen : length (ticker_data T (process tbl))
                 = length (partition T tbl) - 13).
  { rewrite Hrows, length_drop, length_imap. unfold grp, RawTable.coerce.
    by rewrite length_map. }
  assert (Hfin : forall fr, fr ∈ ticker_data T (process tbl) ->
            (exists s, mapM finite (features fr) = Some s /\ length s = 5) /\
            is_Some (finite (target fr))).
  { intros fr Hfr. rewrite Hrows in Hfr.
    apply list_elem_of_lookup in Hfr as [k Hk].
    rewrite lookup_drop, list_lookup_imap in Hk.
    destruct (grp !! (13 + k)) as [r|] eqn:Hr; [|done].
    simpl in Hk. injection Hk as <-.
    pose proof (lookup_lt_Some _ _ _ Hr) as Hi.
    destruct (usable_row_finite rstd grp (13 + k) r Hus' Hi ltac:(lia))
      as (H7 & H14 & _ & Hv & H1 & H2).
    split; [by apply features_finite|].
    destruct (usable_columns grp Hus') as (_ & Hadj & _).
    eapply Forall_lookup_1 in Hadj; eauto. simpl in Hadj.
    unfold target. cbn [base Preprocess.group_features].
    by destruct (Adj_Close r). }
  destruct (mapM (fun fr => mapM finite (features fr))
              (ticker_data T (process tbl))) as [X|] eqn:EX.
  2:{ apply mapM_None_1, Exists_exists in EX as (fr & Hfr & Hno).
      destruct (Hfin fr Hfr) as [(s & Hs & _) _]. congruence. }
  destruct (mapM (fun fr => finite (target fr))
              (ticker_data T (process tbl))) as [y|] eqn:Ey.
  2:{ apply mapM_None_1, Exists_exists in Ey as (fr & Hfr & Hno).
      destruct (Hfin fr Hfr) as [_ [q Hq]]. congruence. }
  exists X, y. unfold feature_matrix, target_vector.
  split; [done|]. split; [done|].
  split; [rewrite <- Hlen; symmetry; by eapply length_mapM|].
  split; [rewrite <- Hlen; symmetry; by eapply length_mapM|].
  apply mapM_Some_1 in EX. clear -EX.
  eapply Forall2_Forall_r; [exact EX|].
  apply Forall_forall. intros fr _ s Hs.
  apply length_mapM in Hs. by rewrite <- Hs.
Qed.

(** X15: a ticker whose raw rows are all usable and number fifteen or more
    can be trained on.  With [m] the number of its rows less 13 and a good
    shuffle of [m] indices, the trainers get [m] samples of five numbers,
    both preparations succeed, and each holds out [ceil(m/5)] samples and
    trains on the rest. *)
Theorem trainers_run_from_fifteen_rows
    T (tbl : list (row RawTable.cell)) m :
  Forall (fun r => usable r = true) (partition T tbl) ->
  15 <= length (partition T tbl) ->
  m = length (partition T tbl) - 13 ->
  is_shuffle m (permutation m) = true ->
  exists X y p q,
    feature_matrix (ticker_data T (process tbl)) = Some X /\
    target_vector (ticker_data T (process tbl)) = Some y /\
    length X = m /\ length y = m /\
    lstm_prepare permutation X y = Some p /\
    rf_prepare sqrtQ permutation X y = Some q /\
    length (X_test_scaled p) = (m + 4) / 5 /\
    length (X_train_scaled p) = m - (m + 4) / 5 /\
    length (X_test_scaled q) = (m + 4) / 5 /\
    length (X_train_scaled q) = m - (m + 4) / 5.
Proof.
  intros Hus Hn Hm Hsh.
  destruct (usable_extraction T tbl Hus) as (X & y & HX & Hy & LX & Ly & _).
  rewrite <- Hm in LX, Ly.
  destruct (prepare_succeeds sqrtQ permutation X y) as (p & q & Hp & Hq & L);
    [lia|lia|by rewrite LX|].
  rewrite LX in L.
  exists X, y, p, q. by repeat split; try tauto.
Qed.

Lemma features_lags fr s :
  mapM finite (features fr) = Some s ->
  exists d e, s !! 3 = Some d /\ s !! 4 = Some e /\
              finite (Lag_1 fr) = Some d /\ finite (Lag_2 fr) = Some e.
Proof.
  unfold features. intros Hs. apply mapM_Some_1 in Hs.
  repeat match goal with
         | H : Forall2 _ (_ :: _) _ |- _ =>
             apply Forall2_cons_inv_l in H as (? & ? & ? & H & ->)
         | H : Forall2 _ [] _ |- _ => apply Forall2_nil_inv_l in H as ->
         end.
  by eexists _, _.
Qed.

(** X20: the target of one sample is a feature of the next.  For a ticker
    whose raw rows are all usable, the fourth feature ([Lag_1]) of each
    sample after the first is the target of the sample before it, and its
    fifth feature ([Lag_2]) is the fourth feature of the sample before it;
    the shuffled split then puts neighbours on both sides. *)
Theorem previous_target_is_a_feature
    T (tbl : list (row RawTable.cell)) X y i s0 s v :
  Forall (fun r => usable r = true) (partition T tbl) ->
  feature_matrix (ticker_data T (process tbl)) = Some X ->
  target_vector (ticker_data T (process tbl)) = Some y ->
  X !! i = Some s0 -> X !! S i = Some s -> y !! i = Some v ->
  s !! 3 = Some v /\ s !! 4 = s0 !! 3.
Proof.
  intros Hus HX Hy Hs0 Hs Hv.
  change (ticker_data T (process tbl))
    with (feat_partition T (process tbl)) in *.
  rewrite (process_partition_drop parse_number rstd T tbl Hus) in HX, Hy.
  apply mapM_Some_1 in HX. apply mapM_Some_1 in Hy.
  destruct (Forall2_lookup_r _ _ _ _ _ HX Hs0) as (fr0 & Hfr0 & Hm0).
  destruct (Forall2_lookup_r _ _ _ _ _ HX Hs) as (fr & Hfr & Hm).
  destruct (Forall2_lookup_r _ _ _ _ _ Hy Hv) as (fr0' & Hfr0' & Hm0').
  simplify_eq. rewrite lookup_drop in Hfr0, Hfr.
  replace (13 + S i) with (S (13 + i)) in Hfr by lia.
  destruct (engine_lag_step rstd T _ _ _ _ Hfr0 Hfr) as [H1 H2].
  destruct (features_lags _ _ Hm0) as (d0 & e0 & Hd0 & _ & Hl0 & _).
  destruct (features_lags _ _ Hm) as (d & e & Hd & He & Hl & Hl').
  unfold target in Hm0'. rewrite H1, Hm0' in Hl. rewrite H2, Hl0 in Hl'.
  injection Hl as <-. injection Hl' as <-.
  split; [exact Hd|exact (eq_trans He (eq_sym Hd0))].
Qed.

End RawPipeline.
End PipelineFacts.

(** ** The names of the saved artifacts *)

Module ArtifactFacts.
Import Trainer.

Lemma chars_append (s1 s2 : string) :
  String.list_ascii_of_string (s1 +:+ s2)
  = String.list_ascii_of_string s1 ++ String.list_ascii_of_string s2.
Proof. induction s1 as [|c s1 IH]; simpl; [done|]. by rewrite IH. Qed.

Lemma chars_inj (s1 s2 : string) :
  String.list_ascii_of_string s1 = String.list_ascii_of_string s2 -> s1 = s2.
Proof.
  intros H. apply (f_equal String.string_of_list_ascii) in H.
  by rewrite !String.string_of_list_ascii_of_string in H.
Qed.

(** Names built on the same prefix and suffix agree only on equal tickers. *)
Lemma framed_inj (pre suf t1 t2 : string) :
  pre +:+ t1 +:+ suf = pre +:+ t2 +:+ suf -> t1 = t2.
Proof.
  intros H. apply (f_equal String.list_ascii_of_string) in H.
  rewrite !chars_append in H.
  apply app_inv_head, app_inv_tail in H. by apply chars_inj.
Qed.

(** Names on the same prefix whose suffixes differ within their last
    characters never agree. *)
Lemma framed_suffix_neq (pre suf1 suf2 t1 t2 : string) :
  (forall l1 l2,
     reverse (String.list_ascii_of_string suf1) ++ l1
     <> reverse (String.list_ascii_of_string suf2) ++ l2) ->
  pre +:+ t1 +:+ suf1 <> pre +:+ t2 +:+ suf2.
Proof.
  intros Hsuf H. apply (f_equal String.list_ascii_of_string) in H.
  rewrite !chars_append in H. apply app_inv_head in H.
  apply (f_equal reverse) in H. rewrite !reverse_app in H.
  by apply Hsuf in H.
Qed.

(** X16: the four artifact names never collide.  For one kind of artifact
    different tickers give different files, and a model file is never a
    scaler file, nor a Random Forest file an LSTM file, whatever the two
    tickers are. *)
Theorem artifact_names_never_collide (t1 t2 : string) :
  (rf_model_filename t1 = rf_model_filename t2 -> t1 = t2) /\
  (rf_scaler_filename t1 = rf_scaler_filename t2 -> t1 = t2) /\
  (lstm_model_filename t1 = lstm_model_filename t2 -> t1 = t2) /\
  (lstm_scaler_filename t1 = lstm_scaler_filename t2 -> t1 = t2) /\
  rf_model_filename t1 <> rf_scaler_filename t2 /\
  rf_model_filename t1 <> lstm_model_filename t2 /\
  rf_model_filename t1 <> lstm_scaler_filename t2 /\
  rf_scaler_filename t1 <> lstm_model_filename t2 /\
  rf_scaler_filename t1 <> lstm_scaler_filename t2 /\
  lstm_model_filename t1 <> lstm_scaler_filename t2.
Proof.
  unfold rf_model_filename, rf_scaler_filename, lstm_model_filename,
    lstm_scaler_filename.
  repeat split;
    try (by apply framed_inj);
    try (by apply framed_suffix_neq; simpl; intros; discriminate);
    by (intros H; simpl in H; discriminate).
Qed.

Lemma artifact_names_never_collide_witness :
  (rf_scaler_filename "XOM" = rf_scaler_filename "XOM" -> "XOM" = "XOM") /\
  rf_scaler_filename "X_lstm" <> lstm_scaler_filename "X".
Proof.
  split.
  - apply (artifact_names_never_collide "XOM" "XOM").
  - apply (artifact_names_never_collide "X_lstm" "X").
Defined.

End ArtifactFacts.

(** ** The further properties at concrete inputs *)

Module MoreWitnesses.
Import Fetch Train Trainer Examples MoreExamples.

Lemma base_exception_aborts_batch_witness :
  fetch_all interrupted_download to_sql_succeeds three_stocks (mkState [] [])
  = Raise (BaseException "KeyboardInterrupt").
Proof.
  eapply (FetchMoreFacts.base_exception_aborts_batch interrupted_download
            to_sql_succeeds [mkStock "XOM" "Exxon Mobil"]
            (mkStock "CVX" "Chevron") [mkStock "COP" "ConocoPhillips"]);
    reflexivity.
Defined.

Lemma rerun_duplicates_rows_witness :
  exists st1 st2,
    fetch_all flaky_download to_sql_succeeds three_stocks (mkState [] [])
    = Ok st1 /\
    fetch_all flaky_download to_sql_succeeds three_stocks st1 = Ok st2 /\
    map Ticker (table st2)
    = [Some "XOM"; Some "COP"; Some "XOM"; Some "COP"].
Proof.
  destruct (FetchMoreFacts.rerun_duplicates_rows flaky_download
              to_sql_succeeds three_stocks (mkState [] []))
    as (st1 & st2 & H1 & H2 & _ & Ht2).
  - reflexivity.
  - intros s msg _. unfold flaky_download.
    destruct (decide (ticker s = "CVX")); discriminate.
  - exists st1, st2. split; [exact H1|]. split; [exact H2|].
    rewrite Ht2. reflexivity.
Defined.

Lemma flatten_columns_plain_witness :
  Columns.flatten xom_headers
  = Some (map Columns.Name
            ["Adj Close"; "Close"; "High"; "Low"; "Open"; "Volume"]).
Proof.
  destruct (Columns.flatten xom_headers) as [flat|] eqn:E;
    [|vm_compute in E; discriminate].
  f_equal.
  destruct (FetchMoreFacts.flatten_columns_plain xom_headers flat E)
    as (_ & _ & _ & _ & Hfields).
  apply (Hfields "XOM"). reflexivity.
Defined.

Lemma split_is_partition_witness :
  exists s,
    train_test_split shuffle X5 y5 = Some s /\
    length (X_test s) = 1 /\ length (X_train s) = 4.
Proof.
  destruct (train_test_split shuffle X5 y5) as [s|] eqn:E;
    [|vm_compute in E; discriminate].
  exists s. split; [reflexivity|].
  destruct (TrainMoreFacts.split_is_partition shuffle X5 y5 s E)
    as (_ & L1 & L2 & _); [reflexivity|].
  split; [exact L1|exact L2].
Defined.

Lemma split_fails_iff_witness :
  train_test_split shuffle [[1; 2; 3; 4; 5]%Q] [10%Q] = None.
Proof.
  apply (TrainMoreFacts.split_fails_iff shuffle). right. simpl. lia.
Defined.

Lemma lstm_inputs_in_unit_range_witness :
  exists r,
    lstm_prepare shuffle X5 y5 = Some r /\
    Forall (Forall in_unit_range) (X_test_scaled r).
Proof.
  destruct (lstm_prepare shuffle X5 y5) as [r|] eqn:E;
    [|vm_compute in E; discriminate].
  exists r. split; [reflexivity|].
  apply (TrainMoreFacts.lstm_inputs_in_unit_range shuffle X5 y5 r E).
Defined.

Lemma rf_training_columns_centred_witness :
  exists q,
    rf_prepare sqrt6 shuffle X5 y5 = Some q /\
    (Qmean (column 0 (X_train_scaled q)) == 0)%Q.
Proof.
  destruct (rf_prepare sqrt6 shuffle X5 y5) as [q|] eqn:E;
    [|vm_compute in E; discriminate].
  exists q. split; [reflexivity|].
  apply (TrainMoreFacts.rf_training_columns_centred sqrt6 shuffle
           X5 y5 q 5 0 E).
  - repeat constructor.
  - lia.
Defined.

Lemma trainers_need_fifteen_rows_witness :
  exists X y,
    feature_matrix
      (ticker_data "XOM" (Preprocess.process parse_decimal exact_std xom14))
    = Some X /\
    target_vector
      (ticker_data "XOM" (Preprocess.process parse_decimal exact_std xom14))
    = Some y /\
    length X = 1 /\
    lstm_prepare shuffle X y = None /\
    rf_prepare sqrt6 shuffle X y = None.
Proof.
  destruct (feature_matrix
              (ticker_data "XOM"
                 (Preprocess.process parse_decimal exact_std xom14)))
    as [X|] eqn:EX; [|vm_compute in EX; discriminate].
  destruct (target_vector
              (ticker_data "XOM"
                 (Preprocess.process parse_decimal exact_std xom14)))
    as [y|] eqn:Ey; [|vm_compute in Ey; discriminate].
  exists X, y. split; [reflexivity|]. split; [reflexivity|]. split.
  - vm_compute in EX. by injection EX as <-.
  - apply (PipelineFacts.trainers_need_fifteen_rows parse_decimal exact_std
             sqrt6 shuffle "XOM" xom14 X y); [|exact EX|exact Ey].
    vm_compute. lia.
Defined.

Lemma trainers_run_from_fifteen_rows_witness :
  exists X y p q,
    feature_matrix
      (ticker_data "XOM"
         (RawTable.process parse_number exact_std (map any_cell xom15)))
    = Some X /\
    target_vector
      (ticker_data "XOM"
         (RawTable.process parse_number exact_std (map any_cell xom15)))
    = Some y /\
    length X = 2 /\
    lstm_prepare shuffle X y = Some p /\
    rf_prepare sqrt6 shuffle X y = Some q /\
    length (X_test_scaled p) = 1 /\ length (X_train_scaled p) = 1.
Proof.
  destruct (PipelineFacts.trainers_run_from_fifteen_rows parse_number
              exact_std sqrt6 shuffle "XOM" (map any_cell xom15) 2)
    as (X & y & p & q & HX & Hy & LX & _ & Hp & Hq & L1 & L2 & _).
  - repeat constructor.
  - vm_compute. lia.
  - reflexivity.
  - reflexivity.
  - exists X, y, p, q. repeat split; assumption.
Defined.

Lemma previous_target_is_a_feature_witness :
  exists X y s v,
    feature_matrix
      (ticker_data "XOM"
         (RawTable.process parse_number exact_std (map any_cell xom16_gap)))
    = Some X /\
    target_vector
      (ticker_data "XOM"
         (RawTable.process parse_number exact_std (map any_cell xom16_gap)))
    = Some y /\
    X !! 1 = Some s /\ y !! 0 = Some v /\ s !! 3 = Some v.
Proof.
  destruct (feature_matrix
              (ticker_data "XOM"
                 (RawTable.process parse_number exact_std
                    (map any_cell xom16_gap))))
    as [X|] eqn:EX; [|vm_compute in EX; discriminate].
  destruct (target_vector
              (ticker_data "XOM"
                 (RawTable.process parse_number exact_std
                    (map any_cell xom16_gap))))
    as [y|] eqn:Ey; [|vm_compute in Ey; discriminate].
  destruct (X !! 0) as [s0|] eqn:E0;
    [|vm_compute in EX; injection EX as <-; discriminate].
  destruct (X !! 1) as [s|] eqn:E1;
    [|vm_compute in EX; injection EX as <-; discriminate].
  destruct (y !! 0) as [v|] eqn:Ev;
    [|vm_compute in Ey; injection Ey as <-; discriminate].
  exists X, y, s, v.
  split; [reflexivity|]. split; [reflexivity|].
  split; [exact E1|]. split; [exact Ev|].
  apply (PipelineFacts.previous_target_is_a_feature parse_number exact_std
           "XOM" (map any_cell xom16_gap) X y 0 s0 s v); try assumption.
  repeat constructor.
Defined.

End MoreWitnesses.
